(** * Version catalog of nuts (lib/versions.js and Nuts.prototype.onUpdate)

    Shallow embedding of the release catalog: tag normalisation, channel
    extraction, the semver-ordered listing, filter/resolve/get/channels, and
    the routes of lib/nuts.js that query the catalog (download, the update
    endpoints, release notes, the versions feed).  JavaScript exceptions and
    rejected promises are the [Err] branch of [result]. *)

From Stdlib Require Import String Ascii ZArith List Lia Bool Sorting.Sorted
  Sorting.Permutation.
From stdpp Require Import base gmap strings list.
Import ListNotations.
Open Scope Z_scope.

(** ** Exceptions and the error monad *)

Inductive js_error : Type :=
  | TypeError (msg : string)
  | Error (msg : string).

Inductive result (A : Type) : Type :=
  | Ok (a : A)
  | Err (e : js_error).
Arguments Ok {A} a.
Arguments Err {A} e.

Definition rbind {A B} (m : result A) (k : A -> result B) : result B :=
  match m with Ok a => k a | Err e => Err e end.

Notation "x <-? m ;; k" := (rbind m (fun x => k))
  (at level 65, m at next level, right associativity).

Fixpoint mapM {A B} (f : A -> result B) (l : list A) : result (list B) :=
  match l with
  | [] => Ok []
  | x :: l' => y <-? f x ;; ys <-? mapM f l' ;; Ok (y :: ys)
  end.

(** lodash [_.filter] with a predicate that may throw: the predicate runs
    on the elements in order and its first exception escapes. *)
Fixpoint filterM {A} (p : A -> result bool) (l : list A) : result (list A) :=
  match l with
  | [] => Ok []
  | x :: l' => b <-? p x ;; r <-? filterM p l' ;; Ok (if b then x :: r else r)
  end.

(** An answer that is [true] (not [false], not an exception). *)
Definition ok_true (r : result bool) : bool :=
  match r with Ok true => true | _ => false end.

(** lodash [_.compact] on an array of objects-or-null. *)
Fixpoint compact {A} (l : list (option A)) : list A :=
  match l with
  | [] => []
  | Some x :: l' => x :: compact l'
  | None :: l' => compact l'
  end.

(** ** JavaScript strings *)

(** [s.split(c)] for a one-character separator [c]. *)
Fixpoint js_split (c : ascii) (s : string) : list string :=
  match s with
  | EmptyString => [EmptyString]
  | String a s' =>
      if Ascii.eqb a c then EmptyString :: js_split c s'
      else match js_split c s' with
           | h :: t => String a h :: t
           | [] => [String a EmptyString]
           end
  end.

Definition str_eqb (s t : string) : bool := String.eqb s t.

(** [!s] for a string: only the empty string is falsy. *)
Definition str_falsy (s : string) : bool := str_eqb s "".

Definition is_digit (a : ascii) : bool :=
  (48 <=? nat_of_ascii a)%nat && (nat_of_ascii a <=? 57)%nat.

Definition is_alnum_dash (a : ascii) : bool :=
  let n := nat_of_ascii a in
  is_digit a || ((65 <=? n) && (n <=? 90))%nat || ((97 <=? n) && (n <=? 122))%nat
  || (n =? 45)%nat.

Definition is_js_space (a : ascii) : bool :=
  let n := nat_of_ascii a in ((9 <=? n) && (n <=? 13))%nat || (n =? 32)%nat.

Fixpoint ltrim (s : string) : string :=
  match s with
  | String a s' => if is_js_space a then ltrim s' else s
  | EmptyString => EmptyString
  end.

Fixpoint str_rev (s : string) (acc : string) : string :=
  match s with
  | EmptyString => acc
  | String a s' => str_rev s' (String a acc)
  end.

(** [s.trim()] on ASCII whitespace. *)
Definition js_trim (s : string) : string :=
  str_rev (ltrim (str_rev (ltrim s) EmptyString)) EmptyString.

(** ** The semver library (the part compareVersions uses)

    [new SemVer(v)]: at most 256 characters, then [v.trim()] must match
    [^v?(0|[1-9]\d* ) \. (..) \. (..) (-pre)? (+build)?$], each component at
    most [Number.MAX_SAFE_INTEGER].  The tags compared by the catalog are
    [version.split('-')[0]], so they never carry a pre-release part; the
    parser below has none and reports such strings invalid, which is what
    semver does for every string without a ['-'] that fails the grammar. *)

Fixpoint span_digits (s : string) : string * string :=
  match s with
  | String a s' =>
      if is_digit a then let '(d, r) := span_digits s' in (String a d, r)
      else (EmptyString, s)
  | EmptyString => (EmptyString, EmptyString)
  end.

Fixpoint digits_value (s : string) (acc : Z) : Z :=
  match s with
  | EmptyString => acc
  | String a s' => digits_value s' (acc * 10 + Z.of_nat (nat_of_ascii a - 48))
  end.

(** [0|[1-9]\d*] *)
Definition numeric_identifier (d : string) : bool :=
  match d with
  | EmptyString => false
  | String "0" EmptyString => true
  | String "0" _ => false
  | _ => true
  end.

Definition build_ok (b : string) : bool :=
  forallb (fun part => negb (str_falsy part) &&
             forallb is_alnum_dash (list_ascii_of_string part))
          (js_split "." b).

Definition MAX_SAFE_INTEGER : Z := 9007199254740991.
Definition MAX_LENGTH : nat := 256.

Definition semver_key : Type := (Z * Z * Z)%type.

(** Returns the [(major, minor, patch)] of a well-formed version. *)
Definition match_full (s : string) : option semver_key :=
  let s := match s with String "v" r => r | _ => s end in
  let '(d1, r1) := span_digits s in
  match r1 with
  | String "." r1' =>
      let '(d2, r2) := span_digits r1' in
      match r2 with
      | String "." r2' =>
          let '(d3, r3) := span_digits r2' in
          if numeric_identifier d1 && numeric_identifier d2 && numeric_identifier d3
          then match r3 with
               | EmptyString => Some (digits_value d1 0, digits_value d2 0, digits_value d3 0)
               | String "+" b =>
                   if build_ok b
                   then Some (digits_value d1 0, digits_value d2 0, digits_value d3 0)
                   else None
               | _ => None
               end
          else None
      | _ => None
      end
  | _ => None
  end.

Definition semver_parse (v : string) : result semver_key :=
  if (MAX_LENGTH <? String.length v)%nat
  then Err (TypeError "version is longer than 256 characters")
  else match match_full (js_trim v) with
       | None => Err (TypeError ("Invalid Version: " ++ v))
       | Some (ma, mi, pa) =>
           if MAX_SAFE_INTEGER <? ma then Err (TypeError "Invalid major version")
           else if MAX_SAFE_INTEGER <? mi then Err (TypeError "Invalid minor version")
           else if MAX_SAFE_INTEGER <? pa then Err (TypeError "Invalid patch version")
           else Ok (ma, mi, pa)
       end.

(** [compareMain]: major, then minor, then patch. *)
Definition key_cmp (a b : semver_key) : comparison :=
  let '(a1, a2, a3) := a in
  let '(b1, b2, b3) := b in
  match Z.compare a1 b1 with
  | Eq => match Z.compare a2 b2 with Eq => Z.compare a3 b3 | c => c end
  | c => c
  end.

(** [semver.compare(a, b)]: parses [a], then [b]. *)
Definition semver_compare (a b : string) : result comparison :=
  ka <-? semver_parse a ;; kb <-? semver_parse b ;; Ok (key_cmp ka kb).

Definition semver_gt (a b : string) : result bool :=
  c <-? semver_compare a b ;; Ok (match c with Gt => true | _ => false end).

Definition semver_lt (a b : string) : result bool :=
  c <-? semver_compare a b ;; Ok (match c with Lt => true | _ => false end).

(** ** Tag filters

    A tag name filter is compiled with [new RegExp(tagNameFilter)] (no
    flags), so [tag.match(regex)] is [null] or one match whose [groups]
    may carry [version].  A filter is modelled by its matcher, that is
    by a pattern [new RegExp] accepts; a pattern it rejects with a
    SyntaxError is not modelled. *)

Record regex_match := mkMatch { groups_version : option string }.

Definition regex : Type := string -> option regex_match.

(** [regex.test(s)] *)
Definition regex_test (re : regex) (s : string) : bool :=
  match re s with Some _ => true | None => false end.


(** ** normalizeTag and extractChannel *)

Definition null_length_error : js_error :=
  TypeError "Cannot read properties of null (reading 'length')".

(** [!matches.groups?.version] *)
Definition version_group_falsy (m : regex_match) : bool :=
  match groups_version m with None => true | Some v => str_falsy v end.

Definition normalizeTag (tag : string) (tagNameFilter : option regex) : result string :=
  match tagNameFilter with
  | Some re =>
      match re tag with
      | None => Err null_length_error          (* null.length *)
      | Some m =>
          if version_group_falsy m then Ok tag
          else Ok (default "" (groups_version m))
      end
  | None =>
      match tag with
      | String "v" rest => Ok rest
      | _ => Ok tag
      end
  end.

Definition getSuffix (str : string) : string :=
  match nth_error (js_split "-" str) 1 with
  | None => "stable"
  | Some suffix =>
      if str_falsy suffix then "stable" else hd "" (js_split "." suffix)
  end.

Definition extractChannel (tag : string) (tagNameFilter : option regex) : result string :=
  match tagNameFilter with
  | None => Ok (getSuffix tag)
  | Some re =>
      match re tag with
      | None => Err null_length_error
      | Some m =>
          if version_group_falsy m then Ok "stable"
          else Ok (getSuffix (default "" (groups_version m)))
      end
  end.

(** ** Releases and versions *)

(** A release asset as the backend returns it ([asset.id] already passed
    through [String]). *)
Record raw_asset := mkRawAsset {
  ra_id : string;
  ra_name : string;
  ra_size : Z;
  ra_content_type : string;
  ra_download_count : Z
}.

(** A backend release; [published_at] is the millisecond timestamp of
    [new Date(release.published_at)], [body] is [None] for a null body. *)
Record raw_release := mkRawRelease {
  tag_name : string;
  draft : bool;
  r_published_at : Z;
  body : option string;
  assets : list raw_asset
}.

Record asset := mkAsset {
  a_id : string;
  a_type : string;
  a_filename : string;
  a_size : Z;
  a_content_type : string
}.

Record version_rec := mkVersion {
  version : string;
  tag : string;
  channel : string;
  notes : string;
  published_at : Z;
  platforms : list asset
}.

(** Values an options field can hold. *)
Inductive jsval : Type :=
  | JUndef
  | JNull
  | JStr (s : string).

Definition truthy (v : jsval) : bool :=
  match v with JStr s => negb (str_falsy s) | _ => false end.

(** [String(v)], as used by ['...' + v]. *)
Definition js_to_string (v : jsval) : string :=
  match v with JUndef => "undefined" | JNull => "null" | JStr s => s end.

(** The fields of an options object that [filter] reads and writes. *)
Record opts_obj := mkOpts {
  o_tag : jsval;
  o_platform : jsval;
  o_channel : jsval
}.

Definition empty_opts : opts_obj := mkOpts JUndef JUndef JUndef.

(** [_.defaults(opts, {tag: 'latest', platform: null, channel: 'stable'})]:
    fills the [undefined] fields of [opts] itself. *)
Definition opts_defaults (o : opts_obj) : opts_obj :=
  mkOpts (match o_tag o with JUndef => JStr "latest" | t => t end)
         (match o_platform o with JUndef => JNull | p => p end)
         (match o_channel o with JUndef => JStr "stable" | c => c end).

(** A channel summary; [latest] is [None] while it is [null]. *)
Record summary := mkSummary {
  latest : option string;
  versions_count : Z;
  s_published_at : Z
}.

(** The names a plain object [{}] inherits from [Object.prototype]:
    [channels[name]] is already truthy for them. *)
Definition object_prototype_keys : list string :=
  ["constructor"; "__proto__"; "__defineGetter__"; "__defineSetter__";
   "__lookupGetter__"; "__lookupSetter__"; "hasOwnProperty"; "isPrototypeOf";
   "propertyIsEnumerable"; "toLocaleString"; "toString"; "valueOf"].

Definition inherited_key (s : string) : bool :=
  existsb (str_eqb s) object_prototype_keys.

(** Response of the update endpoint: [204 'No updates'], or the 200 body
    [{url, name, notes, channel, pub_date}] without the proxy [url]. *)
Inductive update_response : Type :=
  | NoUpdates
  | UpdateAvailable (name notes channel : string) (pub_date : Z).

Definition dq : string := String (ascii_of_nat 34) EmptyString.

Section Catalog.

(** [platforms.detect] of lib/utils/platforms.js: a classifier of file and
    platform names, [None] for [null]. *)
Variable detect : string -> option string.

(** Compatibility of a requested platform with one available platform. *)
Variable compatible : string -> string -> bool.

(** [new Range(range)] of semver: [None] when the constructor throws,
    otherwise the test [Range.prototype.test] runs on a parsed version. *)
Variable range_of : string -> option (semver_key -> bool).

(** Modelled from the spec: [platforms.satisfies(requested, list)] of
    lib/utils/platforms.js, not in src/ -- the requested platform is present
    in the list, or satisfied by a compatible (more specific) platform of
    the list. *)
Definition platforms_satisfies (requested : string) (types : list string) : bool :=
  existsb (compatible requested) types.

Definition asset_of (a : raw_asset) : option asset :=
  match detect (ra_name a) with
  | None => None
  | Some p => Some (mkAsset (ra_id a) p (ra_name a) (ra_size a) (ra_content_type a))
  end.

Definition normalizeVersion (release : raw_release) (tagNameFilter : option regex)
    : result (option version_rec) :=
  if draft release then Ok None
  else if match tagNameFilter with
          | Some re => negb (regex_test re (tag_name release))
          | None => false
          end
  then Ok None
  else
    let releasePlatforms := compact (map asset_of (assets release)) in
    v <-? normalizeTag (tag_name release) tagNameFilter ;;
    v' <-? normalizeTag (tag_name release) tagNameFilter ;;
    ch <-? extractChannel (tag_name release) tagNameFilter ;;
    Ok (Some (mkVersion v (hd "" (js_split "-" v')) ch
                        (default "" (body release)) (r_published_at release)
                        releasePlatforms)).

(** [semver.satisfies(version, range)] of semver 5.0.1: a range the
    [Range] constructor rejects answers [false] (the only error it
    catches); [Range.prototype.test] answers [false] for an empty version
    and otherwise parses it with [new SemVer], whose errors escape. *)
Definition semver_satisfies (version range : string) : result bool :=
  match range_of range with
  | None => Ok false
  | Some test =>
      if str_falsy version then Ok false
      else k <-? semver_parse version ;; Ok (test k)
  end.

(** [semver.satisfies] answered [true]. *)
Definition sat_true (version range : string) : bool :=
  ok_true (semver_satisfies version range).

Definition compareVersions (v1 v2 : version_rec) : result Z :=
  gt <-? semver_gt (tag v1) (tag v2) ;;
  if gt then Ok (-1)
  else lt <-? semver_lt (tag v1) (tag v2) ;;
       if lt then Ok 1 else Ok 0.

(** [Array.prototype.sort(compareVersions)], a stable sort, as an insertion
    sort: the comparator's exceptions abort the sort. *)
Fixpoint insertM (x : version_rec) (l : list version_rec) : result (list version_rec) :=
  match l with
  | [] => Ok [x]
  | y :: l' =>
      c <-? compareVersions x y ;;
      if c <=? 0 then Ok (x :: y :: l')
      else r <-? insertM x l' ;; Ok (y :: r)
  end.

Fixpoint sortM (l : list version_rec) : result (list version_rec) :=
  match l with
  | [] => Ok []
  | x :: l' => s <-? sortM l' ;; insertM x s
  end.

(** The normalised, unsorted versions: [map(normalizeVersion).compact()]. *)
Definition normalized (tagNameFilter : option regex) (releases : list raw_release)
    : result (list version_rec) :=
  vs <-? mapM (fun r => normalizeVersion r tagNameFilter) releases ;;
  Ok (compact vs).

(** [Versions.prototype.list], on the releases the backend returned. *)
Definition list_versions (tagNameFilter : option regex) (releases : list raw_release)
    : result (list version_rec) :=
  vs <-? normalized tagNameFilter releases ;; sortM vs.

(** [opts.tag == 'latest' || semver.satisfies(version.tag, opts.tag)]; a
    tag that is not a string is a range [satisfies] rejects. *)
Definition tag_test (o : opts_obj) (v : version_rec) : result bool :=
  match o_tag o with
  | JStr t => if str_eqb t "latest" then Ok true else semver_satisfies (tag v) t
  | _ => Ok false
  end.

(** The predicate of [Versions.prototype.filter]: the channel test, then
    the platform test, each returning [false] early, then the tag test. *)
Definition filter_keep (o : opts_obj) (v : version_rec) : result bool :=
  let channel_ok :=
    match o_channel o with
    | JStr c => str_eqb c "*" || str_eqb (channel v) c
    | _ => false
    end in
  let platform_ok :=
    if truthy (o_platform o)
    then platforms_satisfies (js_to_string (o_platform o)) (map a_type (platforms v))
    else true in
  if negb channel_ok then Ok false
  else if negb platform_ok then Ok false
  else tag_test o v.

(** [Versions.prototype.filter] on an options object: returns the object as
    [filter] leaves it (defaults merged, platform detected) and the result. *)
Definition filter_obj (tagNameFilter : option regex) (obj : opts_obj)
    (releases : list raw_release) : opts_obj * result (list version_rec) :=
  let o1 := opts_defaults obj in
  let o2 := if truthy (o_platform o1)
            then mkOpts (o_tag o1)
                        (match detect (js_to_string (o_platform o1)) with
                         | Some p => JStr p | None => JNull end)
                        (o_channel o1)
            else o1 in
  (o2, vs <-? list_versions tagNameFilter releases ;; filterM (filter_keep o2) vs).

(** [filter(opts)] with the caller's objects in a heap: [opts] is
    [undefined] ([None]) or a reference to an object of the heap, which
    [_.defaults] updates in place. *)
Definition filter (tagNameFilter : option regex) (h : gmap nat opts_obj)
    (opts : option nat) (releases : list raw_release)
    : gmap nat opts_obj * result (list version_rec) :=
  match opts with
  | None => (h, snd (filter_obj tagNameFilter empty_opts releases))
  | Some l =>
      let '(o', r) := filter_obj tagNameFilter (default empty_opts (h !! l)) releases in
      (<[l := o']> h, r)
  end.

(** [Versions.prototype.resolve]: reads [opts.tag] after [filter] ran. *)
Definition resolve (tagNameFilter : option regex) (h : gmap nat opts_obj)
    (opts : option nat) (releases : list raw_release)
    : gmap nat opts_obj * result version_rec :=
  let '(h', r) := filter tagNameFilter h opts releases in
  (h', vs <-? r ;;
       match vs with
       | v :: _ => Ok v
       | [] =>
           match opts with
           | None => Err (TypeError "Cannot read properties of undefined (reading 'tag')")
           | Some l =>
               Err (Error ("Version not found: " ++
                           js_to_string (o_tag (default empty_opts (h' !! l)))))
           end
       end).

Definition summary_init : summary := mkSummary None 0 0.

(** The update of one channel's summary by a Version: count it, and take
    its tag when it was published after the recorded [published_at]. *)
Definition summary_step (s : summary) (v : version_rec) : summary :=
  let s1 := mkSummary (latest s) (versions_count s + 1) (s_published_at s) in
  if s_published_at s1 <? published_at v
  then mkSummary (Some (tag v)) (versions_count s1) (published_at v)
  else s1.

(** One iteration of the [_.each] in [channels]: an own entry is created
    when [channels[version.channel]] is falsy, which it is not for the
    names inherited from [Object.prototype]; the updates then land on the
    inherited value, not on an own entry of [channels]. *)
Definition channels_step (m : gmap string summary) (v : version_rec)
    : gmap string summary :=
  if inherited_key (channel v) && bool_decide (m !! channel v = None) then m
  else <[channel v := summary_step (default summary_init (m !! channel v)) v]> m.

(** [Versions.prototype.channels]. *)
Definition channels (tagNameFilter : option regex) (releases : list raw_release)
    : result (gmap string summary) :=
  vs <-? list_versions tagNameFilter releases ;;
  Ok (fold_left channels_step vs ∅).

(** Modelled from the spec: [notes.merge(versions, {includeTag: false})] of
    lib/utils/notes.js, not in src/ -- the notes of the versions,
    concatenated in the order given. *)
Definition notes_merge (vs : list version_rec) : string :=
  fold_right (fun v acc => (notes v ++ acc)%string) "" vs.

(** [Nuts.prototype.onUpdate] for the route parameters [platform],
    [channel] and [version] (the url of the answer is not modelled). *)
Definition onUpdate (tagNameFilter : option regex) (param_platform : option string)
    (param_channel : option string) (param_version : string)
    (releases : list raw_release) : result update_response :=
  let channel := default "*" param_channel in
  (* the source's local [tag] *)
  let req_tag := hd "" (js_split "-" param_version) in
  if str_falsy req_tag
  then Err (Error ("Requires " ++ dq ++ "version" ++ dq ++ " parameter"))
  else match param_platform with
  | None => Err (Error ("Requires " ++ dq ++ "platform" ++ dq ++ " parameter"))
  | Some p =>
      if str_falsy p
      then Err (Error ("Requires " ++ dq ++ "platform" ++ dq ++ " parameter"))
      else
        let platform := match detect p with Some q => JStr q | None => JNull end in
        versions <-? snd (filter_obj tagNameFilter
                            (mkOpts (JStr (">=" ++ req_tag)) platform (JStr channel))
                            releases) ;;
        match versions with
        | [] => Ok NoUpdates
        | latest :: _ =>
            if str_eqb (tag latest) req_tag then Ok NoUpdates
            else
              let notesSlice :=
                if (length versions =? 1)%nat then [latest]
                else removelast versions in
              Ok (UpdateAvailable (tag latest) (notes_merge notesSlice)
                                  channel (published_at latest))
        end
  end.

End Catalog.

(** ** The other routes of lib/nuts.js *)

(** The flags express-useragent sets on [req.useragent]. *)
Record useragent := mkUA {
  isMac : bool;
  isWindows : bool;
  isLinux : bool;
  isLinux64 : bool
}.

(** [_.find(assets, {filename: name})]. *)
Definition find_filename (name : string) (l : list asset) : option asset :=
  List.find (fun a => str_eqb (a_filename a) name) l.

(** [p || d] for an optional route parameter. *)
Definition param_or (p : option string) (d : string) : string :=
  match p with Some s => if str_falsy s then d else s | None => d end.

(** A route parameter that [if (x)] treats as present. *)
Definition param_truthy (p : option string) : option string :=
  match p with Some s => if str_falsy s then None else Some s | None => None end.

(** One [feed.addItem] of the versions feed; [link] is the path handed to
    [urljoin] after the base url. *)
Record feed_item := mkItem {
  item_title : string;
  item_link : string;
  item_description : string;
  item_date : Z
}.

Definition feed_item_of (v : version_rec) : feed_item :=
  mkItem (tag v) ("/download/version/" ++ tag v) (notes v) (published_at v).

(** What [onElectronUpdater] answers once [latest] is resolved: the json
    object without its url, a 200 with the text of a yml asset, an asset
    handed to [serveAsset], or [404 'Not Found']. *)
Inductive electron_response : Type :=
  | EUJson (ver : string) (releaseDate : Z)
  | EUContent (content : string)
  | EUServed (a : asset)
  | EUNotFound.

Section Handlers.

Variable detect : string -> option string.
Variable compatible : string -> string -> bool.
Variable range_of : string -> option (semver_key -> bool).

(** [versions.resolve(obj)] on an object literal that nothing else
    references. *)
Definition resolve_fresh (tagNameFilter : option regex) (obj : opts_obj)
    (releases : list raw_release) : result version_rec :=
  snd (resolve detect compatible range_of tagNameFilter
         (<[0%nat := obj]> ∅) (Some 0%nat) releases).

(** [Versions.prototype.get(tag)]: [this.resolve({tag: tag})]. *)
Definition get (tagNameFilter : option regex) (releases : list raw_release)
    (t : jsval) : result version_rec :=
  resolve_fresh tagNameFilter (mkOpts t JUndef JUndef) releases.

(** The platform identifiers [platforms.OSX], [platforms.WINDOWS],
    [platforms.LINUX] and [platforms.LINUX_64]. *)
Variables OSX WINDOWS LINUX LINUX_64 : string.

(** [platforms.resolve(version, platform, {wanted})] of
    lib/utils/platforms.js. *)
Variable platforms_resolve : version_rec -> string -> option string -> option asset.

(** [Nuts.prototype.onDownload] up to the call of [serveAsset]: the Version
    and the asset it serves. *)
Definition onDownload (tagNameFilter : option regex) (ua : useragent)
    (param_channel param_platform param_tag param_filename : option string)
    (filetypeWanted : option string) (releases : list raw_release)
    : result (version_rec * asset) :=
  (* the source's local [tag] *)
  let req_tag := param_or param_tag "latest" in
  let filename := param_truthy param_filename in
  platform <-? match filename with
               | None =>
                   let p0 := match param_platform with Some p => p | None => "" end in
                   let p := if str_falsy p0 then
                              let p1 := if isMac ua then OSX else p0 in
                              let p2 := if isWindows ua then WINDOWS else p1 in
                              let p3 := if isLinux ua then LINUX else p2 in
                              if isLinux64 ua then LINUX_64 else p3
                            else p0 in
                   if str_falsy p
                   then Err (Error "No platform specified and impossible to detect one")
                   else Ok (Some p)
               | Some _ => Ok None
               end ;;
  let channel := if str_eqb req_tag "latest"
                 then match param_channel with Some c => JStr c | None => JUndef end
                 else JStr "*" in
  let platform_val := match platform with Some p => JStr p | None => JNull end in
  version <-? resolve_fresh tagNameFilter (mkOpts (JStr req_tag) platform_val channel) releases ;;
  let asset := match filename with
               | Some fn => find_filename fn (platforms version)
               | None =>
                   platforms_resolve version (default "" platform)
                     (option_map (fun t => ("." ++ t)%string) (param_truthy filetypeWanted))
               end in
  match asset with
  | None =>
      Err (Error ("No download available for platform " ++ js_to_string platform_val ++
                  " for version " ++ tag version ++ " (" ++
                  (if truthy channel then js_to_string channel else "beta") ++ ")"))
  | Some a => Ok (version, a)
  end.

(** [Nuts.prototype.onUpdateWin] up to [backend.readAsset]: the Version
    and its RELEASES asset. *)
Definition onUpdateWin (tagNameFilter : option regex) (param_channel : option string)
    (param_version : string) (releases : list raw_release)
    : result (version_rec * asset) :=
  let channel := param_or param_channel "*" in
  let platform := match detect "win_32" with Some q => JStr q | None => JNull end in
  versions <-? snd (filter_obj detect compatible range_of tagNameFilter
                      (mkOpts (JStr (">=" ++ param_version)) platform (JStr channel))
                      releases) ;;
  match versions with
  | [] => Err (Error "Version not found")
  | latest :: _ =>
      match find_filename "RELEASES" (platforms latest) with
      | None => Err (Error "File not found")
      | Some a => Ok (latest, a)
      end
  end.

(** [Nuts.prototype.onServeNotes], the [application/json] answer:
    [{notes, pub_date}]. *)
Definition onServeNotes (tagNameFilter : option regex) (param_version : option string)
    (releases : list raw_release) : result (string * Z) :=
  let range := match param_truthy param_version with
               | Some t => (">=" ++ t)%string
               | None => "*"
               end in
  versions <-? snd (filter_obj detect compatible range_of tagNameFilter
                      (mkOpts (JStr range) JUndef (JStr "*")) releases) ;;
  match versions with
  | [] => Err (Error "No versions matching")
  | latest :: _ => Ok (notes_merge versions, published_at latest)
  end.

(** [Nuts.prototype.onServeVersionsFeed]: the items of the feed. *)
Definition onServeVersionsFeed (tagNameFilter : option regex)
    (param_channel : option string) (releases : list raw_release)
    : result (list feed_item) :=
  let channel := param_or param_channel "all" in
  let channelId := if str_eqb channel "all" then "*" else channel in
  versions <-? snd (filter_obj detect compatible range_of tagNameFilter
                      (mkOpts JUndef JUndef (JStr channelId)) releases) ;;
  Ok (map feed_item_of versions).

(** [backend.readAsset(asset)], then [content.toString()]. *)
Variable readAsset : asset -> string.

(** [Nuts.prototype.onElectronUpdater]; the value [serveAsset]'s promise
    yields, and what the handler sends after it, are not modelled. *)
Definition onElectronUpdater (tagNameFilter : option regex)
    (param_platform param_channel : option string) (filename : string)
    (releases : list raw_release) : result electron_response :=
  let channel := param_or param_channel "*" in
  match param_truthy param_platform with
  | None => Err (Error ("Requires " ++ dq ++ "platform" ++ dq ++ " parameter"))
  | Some p =>
      let platform := match detect p with Some q => JStr q | None => JNull end in
      latest <-? resolve_fresh tagNameFilter (mkOpts JUndef platform (JStr channel))
                   releases ;;
      let contentType := List.last (js_split "." filename) "" in
      if str_eqb contentType "json"
      then Ok (EUJson (version latest) (published_at latest))
      else if str_eqb contentType "yml"
      then match find_filename filename (platforms latest) with
           | None => Ok EUNotFound
           | Some a =>
               let content := readAsset a in
               if str_falsy content then Ok EUNotFound else Ok (EUContent content)
           end
      else if str_eqb contentType "exe" || str_eqb contentType "zip"
              || str_eqb contentType "blockmap"
      then match find_filename filename (platforms latest) with
           | None => Ok EUNotFound
           | Some a => Ok (EUServed a)
           end
      else Ok EUNotFound
  end.

End Handlers.

(** ** Concrete collaborators for evaluating the model *)

Definition str_contains (pat s : string) : bool :=
  match String.index 0 pat s with Some _ => true | None => false end.

(** A platform classifier in the manner of [platforms.detect]. *)
Definition detect_simple (name : string) : option string :=
  if str_contains "dmg" name || str_contains "osx" name || str_contains "darwin" name
  then Some "osx_64"
  else if str_contains "nupkg" name || str_contains "exe" name || str_contains "win" name
  then Some "windows_32"
  else if str_contains "linux" name then Some "linux_64"
  else None.

Definition compatible_eq (requested available : string) : bool :=
  str_eqb requested available.

(** [new Range(range)] on the ranges the routes build, one [>=]
    comparator or [*]; any other range counts as one the constructor
    rejects. *)
Definition range_ge (range : string) : option (semver_key -> bool) :=
  match range with
  | String ">" (String "=" r) =>
      match semver_parse r with
      | Ok b => Some (fun a => match key_cmp a b with Lt => false | _ => true end)
      | Err _ => None
      end
  | String "*" EmptyString => Some (fun _ => true)
  | _ => None
  end.

Definition release (t : string) (ts : Z) (n : option string) (files : list string) : raw_release :=
  mkRawRelease t false ts n (map (fun f => mkRawAsset f f 1 "application/octet-stream" 0) files).

(** ** Properties of the semver ordering *)

(** Precedence of parsed tags: [v] sorts before or together with [w]. *)
Definition tag_ge (v w : version_rec) : Prop :=
  exists a b, semver_parse (tag v) = Ok a /\ semver_parse (tag w) = Ok b /\
              key_cmp a b <> Lt.

(** [w] and [v] have semver-equal tags. *)
Definition same_tag (w v : version_rec) : bool :=
  match semver_parse (tag w), semver_parse (tag v) with
  | Ok a, Ok b => match key_cmp a b with Eq => true | _ => false end
  | _, _ => false
  end.

Definition cmp_to_Z (c : comparison) : Z :=
  match c with Gt => -1 | Lt => 1 | Eq => 0 end.

(** Sample backend answers. *)
Definition sample_releases : list raw_release :=
  [release "v1.0.0" 5 (Some "first") ["app-darwin.dmg"];
   release "v2.0.0-beta.1" 10 (Some "beta") ["app-darwin.dmg"; "app-win32.exe"];
   release "v1.0.0+rebuild" 7 None ["app-linux.deb"];
   release "v1.1.0" 8 None []].

Definition malformed_releases : list raw_release :=
  [release "v1.0.0" 5 None []; release "nightly" 6 None []].

Definition ok_or_nil {A} (r : result (list A)) : list A :=
  match r with Ok l => l | Err _ => [] end.

Definition update_releases : list raw_release :=
  [release "v1.2.0" 10 (Some "a") ["app-darwin.dmg"];
   release "v1.1.0" 5 (Some "b") ["app-darwin.dmg"]].

(** The platform [filter] asks for: the canonical identifier of the
    requested one, unset when it is missing, null or empty, or when the
    classifier does not recognise it. *)
Definition requested_platform (detect : string -> option string) (o : opts_obj)
    : option string :=
  if truthy (o_platform o)
  then match detect (js_to_string (o_platform o)) with
       | Some p => if str_falsy p then None else Some p
       | None => None
       end
  else None.

(** The channel and platform tests of the selection the specification of
    [filter] describes, on the options with defaults merged. *)
Definition c3_pre (detect : string -> option string)
    (compatible : string -> string -> bool)
    (o : opts_obj) (v : version_rec) : bool :=
  (match o_channel o with
   | JStr c => str_eqb c "*" || str_eqb c (channel v)
   | _ => false
   end) &&
  (match requested_platform detect o with
   | None => true
   | Some p => existsb (fun a => compatible p (a_type a)) (platforms v)
   end).

(** The selection the specification of [filter] describes: the channel and
    platform tests, and the tag is "latest" or satisfies the range. *)
Definition c3_selected (detect : string -> option string)
    (compatible range_satisfies : string -> string -> bool)
    (o : opts_obj) (v : version_rec) : bool :=
  c3_pre detect compatible o v &&
  (match o_tag o with
   | JStr t => str_eqb t "latest" || range_satisfies (tag v) t
   | _ => false
   end).

(** The tag test of [filter] cannot throw on [v]: the requested tag is
    "latest" or a range semver rejects, or the Version's tag is empty or
    one semver parses. *)
Definition tag_test_safe (range_of : string -> option (semver_key -> bool))
    (o : opts_obj) (v : version_rec) : Prop :=
  match o_tag o with
  | JStr t => str_eqb t "latest" = true \/ range_of t = None \/
              str_falsy (tag v) = true \/ exists k, semver_parse (tag v) = Ok k
  | _ => True
  end.


(** The releases of the specification's scenario. *)
Definition scenario_releases : list raw_release :=
  [release "v2.0.0-beta.1" 10 None ["app-darwin.dmg"];
   release "v1.0.0" 5 None ["app-darwin.dmg"]].

(** [s] has no character [c]. *)
Definition no_char (c : ascii) (s : string) : Prop :=
  forallb (fun a => negb (Ascii.eqb a c)) (list_ascii_of_string s) = true.

(** [s] is the string extractChannel splits: the tag without a filter, the
    non-empty [version] group of a matching filter. *)
Definition channel_source (f : option regex) (tag s : string) : Prop :=
  (f = None /\ s = tag) \/
  (exists re m, f = Some re /\ re tag = Some m /\ groups_version m = Some s /\
                str_falsy s = false).

(** A caller's options object without tag, asking for channel "nightly". *)
Definition caller_heap : gmap nat opts_obj :=
  <[0%nat := mkOpts JUndef JUndef (JStr "nightly")]> ∅.

(** A classifier that also recognises the RELEASES file of Squirrel.Windows. *)
Definition detect_with_releases (name : string) : option string :=
  if str_eqb name "RELEASES" then Some "windows_32" else detect_simple name.

Definition win_releases : list raw_release :=
  [release "v1.1.0" 9 None ["app-win32.exe"];
   release "v1.0.0" 5 None ["RELEASES"; "app-win32.exe"]].


Ltac key_cases :=
  repeat match goal with
  | k : semver_key |- _ => destruct k as [[? ?] ?]
  end;
  unfold key_cmp in *;
  repeat match goal with
  | H : context [Z.compare ?x ?y] |- _ => destruct (Z.compare_spec x y)
  | |- context [Z.compare ?x ?y] => destruct (Z.compare_spec x y)
  end;
  try discriminate; try congruence; try lia.

Lemma key_cmp_ge_trans (a b c : semver_key) :
  key_cmp a b <> Lt -> key_cmp b c <> Lt -> key_cmp a c <> Lt.
Proof. intros H1 H2; key_cases. Qed.

Lemma key_cmp_lt_ge (a b : semver_key) : key_cmp a b = Lt -> key_cmp b a <> Lt.
Proof. intros H; key_cases. Qed.

Lemma key_cmp_eq_lt (a b c : semver_key) :
  key_cmp a b = Eq -> key_cmp b c = Lt -> key_cmp a c = Eq -> False.
Proof. intros H1 H2 H3; key_cases. Qed.

Lemma compareVersions_spec (x y : version_rec) :
  compareVersions x y =
  match semver_parse (tag x), semver_parse (tag y) with
  | Ok a, Ok b => Ok (cmp_to_Z (key_cmp a b))
  | Err e, _ => Err e
  | Ok _, Err e => Err e
  end.
Proof.
  unfold compareVersions, semver_gt, semver_lt, semver_compare.
  destruct (semver_parse (tag x)); destruct (semver_parse (tag y)); simpl; try reflexivity.
  destruct (key_cmp a a0); reflexivity.
Qed.

Lemma compareVersions_ok (x y : version_rec) (c : Z) :
  compareVersions x y = Ok c ->
  exists a b, semver_parse (tag x) = Ok a /\ semver_parse (tag y) = Ok b /\
              c = cmp_to_Z (key_cmp a b).
Proof.
  rewrite compareVersions_spec.
  destruct (semver_parse (tag x)); destruct (semver_parse (tag y)); intros H;
    inversion H; subst; eauto.
Qed.

Lemma compareVersions_err (x y : version_rec) (e : js_error) :
  compareVersions x y = Err e ->
  semver_parse (tag x) = Err e \/ semver_parse (tag y) = Err e.
Proof.
  rewrite compareVersions_spec.
  destruct (semver_parse (tag x)); destruct (semver_parse (tag y)); intros H;
    inversion H; subst; auto.
Qed.

Lemma compareVersions_fails (x y : version_rec) :
  (exists e, semver_parse (tag x) = Err e) \/ (exists e, semver_parse (tag y) = Err e) ->
  exists e, compareVersions x y = Err e.
Proof.
  rewrite compareVersions_spec.
  intros [[e He] | [e He]]; rewrite He; eauto.
  destruct (semver_parse (tag x)); eauto.
Qed.

Lemma tag_ge_trans (x y z : version_rec) : tag_ge x y -> tag_ge y z -> tag_ge x z.
Proof.
  intros (a & b & Ha & Hb & Hab) (b' & c & Hb' & Hc & Hbc).
  rewrite Hb in Hb'; inversion Hb'; subst.
  exists a, c; repeat split; auto. eapply key_cmp_ge_trans; eauto.
Qed.

(** ** The sort *)

Lemma insertM_perm (x : version_rec) (l r : list version_rec) :
  insertM x l = Ok r -> Permutation (x :: l) r.
Proof.
  revert r; induction l as [|y l IH]; intros r H; simpl in H.
  - inversion H; subst; auto.
  - destruct (compareVersions x y) as [c|e]; simpl in H; [|discriminate].
    destruct (c <=? 0).
    + inversion H; subst; auto.
    + destruct (insertM x l) as [r'|e] eqn:Hi; simpl in H; [|discriminate].
      inversion H; subst.
      apply perm_trans with (y :: x :: l); [constructor|].
      constructor; auto.
Qed.

Lemma sortM_perm (l r : list version_rec) : sortM l = Ok r -> Permutation l r.
Proof.
  revert r; induction l as [|x l IH]; intros r H; simpl in H.
  - inversion H; auto.
  - destruct (sortM l) as [s|e]; simpl in H; [|discriminate].
    apply perm_trans with (x :: s); [constructor; auto|].
    apply insertM_perm; auto.
Qed.

Lemma insertM_sorted (x : version_rec) (l r : list version_rec) :
  StronglySorted tag_ge l -> insertM x l = Ok r -> StronglySorted tag_ge r.
Proof.
  revert r; induction l as [|y l IH]; intros r Hs H; simpl in H.
  - inversion H; subst. repeat constructor.
  - destruct (compareVersions x y) as [c|e] eqn:Hc; simpl in H; [|discriminate].
    apply compareVersions_ok in Hc as (a & b & Ha & Hb & ->).
    inversion Hs as [|? ? Hs' Hall]; subst.
    destruct (cmp_to_Z (key_cmp a b) <=? 0) eqn:Hle.
    + inversion H; subst.
      assert (Hxy : tag_ge x y).
      { exists a, b; repeat split; auto.
        destruct (key_cmp a b); simpl in Hle; discriminate. }
      constructor; [assumption|].
      constructor; [assumption|].
      rewrite List.Forall_forall in Hall |- *.
      intros z Hz; eapply tag_ge_trans; eauto.
    + destruct (insertM x l) as [r'|e] eqn:Hi; simpl in H; [|discriminate].
      inversion H; subst.
      assert (Hyx : tag_ge y x).
      { exists b, a; repeat split; auto.
        apply key_cmp_lt_ge.
        destruct (key_cmp a b); simpl in Hle; try discriminate; reflexivity. }
      constructor; [apply IH; auto|].
      apply insertM_perm in Hi.
      rewrite List.Forall_forall in Hall |- *.
      intros z Hz.
      apply (Permutation_in _ (Permutation_sym Hi)) in Hz.
      destruct Hz as [<-|Hz]; auto.
Qed.

Lemma sortM_sorted (l r : list version_rec) : sortM l = Ok r -> StronglySorted tag_ge r.
Proof.
  revert r; induction l as [|x l IH]; intros r H; simpl in H.
  - inversion H; constructor.
  - destruct (sortM l) as [s|e] eqn:Hs; simpl in H; [|discriminate].
    eapply insertM_sorted; eauto.
Qed.

Lemma insertM_stable (w x : version_rec) (l r : list version_rec) :
  insertM x l = Ok r -> List.filter (same_tag w) r = List.filter (same_tag w) (x :: l).
Proof.
  revert r; induction l as [|y l IH]; intros r H; simpl in H.
  - inversion H; reflexivity.
  - destruct (compareVersions x y) as [c|e] eqn:Hc; simpl in H; [|discriminate].
    apply compareVersions_ok in Hc as (a & b & Ha & Hb & ->).
    destruct (cmp_to_Z (key_cmp a b) <=? 0) eqn:Hle.
    + inversion H; reflexivity.
    + destruct (insertM x l) as [r'|e] eqn:Hi; simpl in H; [|discriminate].
      inversion H; subst.
      assert (Hlt : key_cmp a b = Lt)
        by (destruct (key_cmp a b); simpl in Hle; try discriminate; reflexivity).
      assert (Hno : same_tag w x = true -> same_tag w y = true -> False).
      { unfold same_tag; rewrite Ha, Hb.
        destruct (semver_parse (tag w)) as [kw|e]; intros H1 H2; [|discriminate].
        destruct (key_cmp kw a) eqn:Ea; try discriminate.
        destruct (key_cmp kw b) eqn:Eb; try discriminate.
        exact (key_cmp_eq_lt kw a b Ea Hlt Eb). }
      change (List.filter (same_tag w) (y :: r')) with
        (if same_tag w y then y :: List.filter (same_tag w) r'
         else List.filter (same_tag w) r').
      rewrite (IH r' eq_refl).
      change (List.filter (same_tag w) (x :: l)) with
        (if same_tag w x then x :: List.filter (same_tag w) l
         else List.filter (same_tag w) l).
      change (List.filter (same_tag w) (x :: y :: l)) with
        (if same_tag w x then x :: List.filter (same_tag w) (y :: l)
         else List.filter (same_tag w) (y :: l)).
      change (List.filter (same_tag w) (y :: l)) with
        (if same_tag w y then y :: List.filter (same_tag w) l
         else List.filter (same_tag w) l).
      destruct (same_tag w x); destruct (same_tag w y); try reflexivity.
      exfalso; auto.
Qed.

Lemma sortM_stable (w : version_rec) (l r : list version_rec) :
  sortM l = Ok r -> List.filter (same_tag w) r = List.filter (same_tag w) l.
Proof.
  revert r; induction l as [|x l IH]; intros r H; simpl in H.
  - inversion H; reflexivity.
  - destruct (sortM l) as [s|e] eqn:Hs; simpl in H; [|discriminate].
    rewrite (insertM_stable w x s r H). simpl.
    rewrite (IH s eq_refl). reflexivity.
Qed.

Lemma insertM_err (x : version_rec) (l : list version_rec) (e : js_error) :
  insertM x l = Err e ->
  semver_parse (tag x) = Err e \/ exists v, In v l /\ semver_parse (tag v) = Err e.
Proof.
  induction l as [|y l IH]; intros H; simpl in H; [discriminate|].
  destruct (compareVersions x y) as [c|e'] eqn:Hc; simpl in H.
  - destruct (c <=? 0); [discriminate|].
    destruct (insertM x l) as [r'|e'] eqn:Hi; simpl in H; [discriminate|].
    inversion H; subst.
    destruct (IH eq_refl) as [Hx | (v & Hv & Hpv)]; [auto|].
    right; exists v; simpl; auto.
  - inversion H; subst.
    apply compareVersions_err in Hc as [Hx | Hy]; [auto|].
    right; exists y; simpl; auto.
Qed.

Lemma sortM_err (l : list version_rec) (e : js_error) :
  sortM l = Err e -> exists v, In v l /\ semver_parse (tag v) = Err e.
Proof.
  induction l as [|x l IH]; intros H; simpl in H; [discriminate|].
  destruct (sortM l) as [s|e'] eqn:Hs; simpl in H.
  - apply insertM_err in H as [Hx | (v & Hv & Hpv)].
    + exists x; simpl; auto.
    + exists v; split; [|assumption].
      right. apply (Permutation_in _ (Permutation_sym (sortM_perm _ _ Hs))); assumption.
  - inversion H; subst.
    destruct (IH eq_refl) as (v & Hv & Hpv). exists v; simpl; auto.
Qed.

Lemma insertM_cmp_err (x y : version_rec) (l : list version_rec) (e : js_error) :
  compareVersions x y = Err e -> insertM x (y :: l) = Err e.
Proof.
  intros H.
  change (insertM x (y :: l)) with
    (c <-? compareVersions x y ;;
     if c <=? 0 then Ok (x :: y :: l) else r <-? insertM x l ;; Ok (y :: r)).
  rewrite H; reflexivity.
Qed.

Lemma sortM_fails (l : list version_rec) :
  (2 <= length l)%nat ->
  (exists v e, In v l /\ semver_parse (tag v) = Err e) ->
  exists e, sortM l = Err e.
Proof.
  induction l as [|x l IH]; intros Hlen Hbad; simpl in Hlen; [lia|].
  destruct l as [|y l']; simpl in Hlen; [lia|].
  destruct Hbad as (v & e & Hv & Hpv).
  destruct l' as [|z l''].
  - (* two versions: one comparison *)
    destruct (compareVersions_fails x y) as [e' He'].
    { destruct Hv as [<-|[<-|[]]]; eauto. }
    exists e'. change (sortM [x; y]) with (insertM x [y]).
    apply insertM_cmp_err; assumption.
  - destruct Hv as [<-|Hv].
    + change (sortM (x :: y :: z :: l'')) with
        (s <-? sortM (y :: z :: l'') ;; insertM x s).
      destruct (sortM (y :: z :: l'')) as [s|e'] eqn:Hs; simpl; [|eauto].
      pose proof (Permutation_length (sortM_perm _ _ Hs)) as Hl.
      destruct s as [|y' s']; simpl in Hl; [lia|].
      destruct (compareVersions_fails x y') as [e' He']; [eauto|].
      exists e'; apply insertM_cmp_err; assumption.
    + destruct (IH ltac:(simpl; lia) ltac:(eauto)) as [e' He'].
      change (sortM (x :: y :: z :: l'')) with
        (s <-? sortM (y :: z :: l'') ;; insertM x s).
      rewrite He'. simpl. eauto.
Qed.

(** ** C2: the listing is sorted newest first, stably *)

(** C2. When [list()] succeeds, its output is a permutation of the
    normalised releases in backend order; every Version is semver-greater
    than or equal to every Version after it; and for every tag, the
    Versions with a semver-equal tag keep their backend order. *)
Theorem list_versions_sorted_stable (detect : string -> option string)
    (f : option regex) (rs : list raw_release) (vs : list version_rec)
    (H : list_versions detect f rs = Ok vs) :
  exists ins, normalized detect f rs = Ok ins /\ Permutation ins vs /\
    StronglySorted tag_ge vs /\
    forall w, List.filter (same_tag w) vs = List.filter (same_tag w) ins.
Proof.
  unfold list_versions in H.
  destruct (normalized detect f rs) as [ins|e]; simpl in H; [|discriminate].
  exists ins; split; [reflexivity|].
  split; [apply sortM_perm; assumption|].
  split; [apply (sortM_sorted ins); assumption|].
  intros w; apply sortM_stable; assumption.
Qed.

Lemma list_versions_sorted_stable_witness :
  list_versions detect_simple None sample_releases =
    Ok (ok_or_nil (list_versions detect_simple None sample_releases)) /\
  exists ins, normalized detect_simple None sample_releases = Ok ins /\
    Permutation ins (ok_or_nil (list_versions detect_simple None sample_releases)) /\
    StronglySorted tag_ge (ok_or_nil (list_versions detect_simple None sample_releases)) /\
    forall w, List.filter (same_tag w) (ok_or_nil (list_versions detect_simple None sample_releases))
              = List.filter (same_tag w) ins.
Proof.
  split; [vm_compute; reflexivity|].
  apply list_versions_sorted_stable. vm_compute. reflexivity.
Defined.

(** ** C9: malformed tags and the sort *)

(** C9 (counterexample). A single release whose tag semver cannot parse
    is listed: the sort of a one-element array never calls the comparator. *)
Lemma list_versions_single_malformed :
  (exists e, semver_parse "nightly" = Err e) /\
  list_versions detect_simple None [release "nightly" 6 None []] =
    Ok [mkVersion "nightly" "nightly" "stable" "" 6 []].
Proof. split; [eexists; reflexivity | reflexivity]. Qed.

(** C9 (amended). With at least two normalised Versions, one of whose tags
    semver cannot parse, [list()] fails with semver's error for one of the
    malformed tags; a single normalised Version is returned as it is; and a
    successful [list()] drops nothing. *)
Theorem list_versions_malformed (detect : string -> option string)
    (f : option regex) (rs : list raw_release) (ins : list version_rec)
    (H : normalized detect f rs = Ok ins) :
  ((2 <= length ins)%nat ->
   (exists v e, In v ins /\ semver_parse (tag v) = Err e) ->
   exists v e, In v ins /\ semver_parse (tag v) = Err e /\
               list_versions detect f rs = Err e) /\
  (forall v, ins = [v] -> list_versions detect f rs = Ok [v]) /\
  (forall vs, list_versions detect f rs = Ok vs -> Permutation ins vs).
Proof.
  unfold list_versions; rewrite H; simpl.
  split; [|split].
  - intros Hlen Hbad.
    destruct (sortM_fails ins Hlen Hbad) as [e He].
    destruct (sortM_err ins e He) as (v & Hv & Hpv).
    exists v, e; auto.
  - intros v ->; reflexivity.
  - intros vs Hs; apply sortM_perm; assumption.
Qed.

Lemma list_versions_malformed_witness :
  normalized detect_simple None malformed_releases =
    Ok (ok_or_nil (normalized detect_simple None malformed_releases)) /\
  exists v e, In v (ok_or_nil (normalized detect_simple None malformed_releases)) /\
    semver_parse (tag v) = Err e /\ list_versions detect_simple None malformed_releases = Err e.
Proof.
  split; [vm_compute; reflexivity|].
  apply (list_versions_malformed detect_simple None malformed_releases
           (ok_or_nil (normalized detect_simple None malformed_releases))
           ltac:(vm_compute; reflexivity)).
  - simpl; lia.
  - exists (mkVersion "nightly" "nightly" "stable" "" 6 []),
      (TypeError "Invalid Version: nightly").
    split; [simpl; auto | reflexivity].
Defined.

(** ** C1: normalizeTag *)





Lemma filter_obj_tag (detect : string -> option string)
    (compatible : string -> string -> bool)
    (range_of : string -> option (semver_key -> bool)) (f : option regex)
    (obj : opts_obj) (rs : list raw_release) :
  o_tag (fst (filter_obj detect compatible range_of f obj rs)) =
    o_tag (opts_defaults obj).
Proof. unfold filter_obj; simpl; destruct (truthy _); reflexivity. Qed.

Lemma filter_obj_channel (detect : string -> option string)
    (compatible : string -> string -> bool)
    (range_of : string -> option (semver_key -> bool)) (f : option regex)
    (obj : opts_obj) (rs : list raw_release) :
  o_channel (fst (filter_obj detect compatible range_of f obj rs)) =
    o_channel (opts_defaults obj).
Proof. unfold filter_obj; simpl; destruct (truthy _); reflexivity. Qed.

Lemma filter_obj_platform (detect : string -> option string)
    (compatible : string -> string -> bool)
    (range_of : string -> option (semver_key -> bool)) (f : option regex)
    (obj : opts_obj) (rs : list raw_release) :
  truthy (o_platform (opts_defaults obj)) = false ->
  o_platform (fst (filter_obj detect compatible range_of f obj rs)) =
    o_platform (opts_defaults obj).
Proof. unfold filter_obj; simpl; intros ->; reflexivity. Qed.

(** ** C4: resolve *)

(** C4. [resolve()] without an options object, on a catalog where
    [filter] finds nothing, throws a TypeError on [opts.tag] instead of the
    version-not-found error. *)
Theorem resolve_undefined_opts_typeerror :
  snd (resolve detect_simple compatible_eq range_ge None ∅ None []) =
    Err (TypeError "Cannot read properties of undefined (reading 'tag')").
Proof. reflexivity. Qed.

(** With an options object the not-found error carries its tag, defaults
    merged. *)
Lemma resolve_not_found_object (detect : string -> option string)
    (compatible : string -> string -> bool)
    (range_of : string -> option (semver_key -> bool)) (f : option regex)
    (h : gmap nat opts_obj) (l : nat) (rs : list raw_release) :
  snd (filter detect compatible range_of f h (Some l) rs) = Ok [] ->
  snd (resolve detect compatible range_of f h (Some l) rs) =
    Err (Error ("Version not found: " ++
                js_to_string (o_tag (opts_defaults (default empty_opts (h !! l)))))).
Proof.
  unfold resolve, filter.
  destruct (filter_obj detect compatible range_of f
              (default empty_opts (h !! l)) rs) as [o' r] eqn:Hf.
  simpl; intros ->; simpl.
  rewrite lookup_insert_eq; simpl.
  replace o' with (fst (filter_obj detect compatible range_of f
                          (default empty_opts (h !! l)) rs)) by (rewrite Hf; reflexivity).
  rewrite filter_obj_tag; reflexivity.
Qed.

Lemma resolve_first (detect : string -> option string)
    (compatible : string -> string -> bool)
    (range_of : string -> option (semver_key -> bool)) (f : option regex)
    (h : gmap nat opts_obj) (o : option nat) (rs : list raw_release)
    (v : version_rec) (vs : list version_rec) :
  snd (filter detect compatible range_of f h o rs) = Ok (v :: vs) ->
  snd (resolve detect compatible range_of f h o rs) = Ok v.
Proof.
  unfold resolve.
  destruct (filter detect compatible range_of f h o rs) as [h' r].
  simpl; intros ->; reflexivity.
Qed.


(** ** C5: release notes of the update endpoint *)

(** C5. A client at 1.0.0 while 1.2.0 and 1.1.0 are published (1.0.0 is
    not): both qualify and are newer, but the answer carries the notes of
    1.2.0 only, since [versions.slice(0, -1)] drops the oldest qualifying
    version whether or not it is the client's. *)
Theorem onUpdate_notes_drop_newer_version :
  (exists v12 v11,
     snd (filter_obj detect_simple compatible_eq range_ge None
            (mkOpts (JStr ">=1.0.0") (JStr "osx_64") (JStr "*")) update_releases)
       = Ok [v12; v11] /\
     tag v12 = "1.2.0" /\ tag v11 = "1.1.0" /\ notes_merge [v12; v11] = "ab") /\
  onUpdate detect_simple compatible_eq range_ge None (Some "osx") None "1.0.0"
           update_releases = Ok (UpdateAvailable "1.2.0" "a" "*" 10).
Proof.
  split; [|reflexivity].
  do 2 eexists; split; [reflexivity|].
  repeat split; reflexivity.
Qed.

(** ** C3: filter *)

Lemma existsb_map_compose {A B} (p : B -> bool) (g : A -> B) (l : list A) :
  existsb p (map g l) = existsb (fun a => p (g a)) l.
Proof. induction l as [|x l IH]; simpl; [reflexivity|]; rewrite IH; reflexivity. Qed.

(** The platform field [filter] leaves in the options: the detected
    platform when the merged one is truthy. *)
Lemma filter_keep_shape (detect : string -> option string)
    (compatible : string -> string -> bool)
    (range_of : string -> option (semver_key -> bool))
    (o1 : opts_obj) (v : version_rec) :
  filter_keep compatible range_of
    (if truthy (o_platform o1)
     then mkOpts (o_tag o1)
                 (match detect (js_to_string (o_platform o1)) with
                  | Some p => JStr p | None => JNull end)
                 (o_channel o1)
     else o1) v =
  if c3_pre detect compatible o1 v then tag_test range_of o1 v else Ok false.
Proof.
  destruct o1 as [t p c].
  unfold filter_keep, c3_pre, requested_platform; simpl.
  assert (Hch : forall c, str_eqb c "*" || str_eqb (channel v) c =
                          str_eqb c "*" || str_eqb c (channel v)).
  { intros c'; unfold str_eqb; rewrite (String.eqb_sym (channel v) c'); reflexivity. }
  destruct (truthy p) eqn:Ht; [destruct (detect (js_to_string p)) as [q|]|]; simpl;
    destruct c as [| |c]; simpl; try reflexivity; rewrite ?Hch;
    destruct (str_eqb c "*" || str_eqb c (channel v)); simpl; try reflexivity.
  - destruct (str_falsy q); simpl; [reflexivity|].
    unfold platforms_satisfies; rewrite existsb_map_compose.
    destruct (existsb _ _); reflexivity.
  - rewrite Ht; reflexivity.
Qed.

Lemma filter_keep_obj (detect : string -> option string)
    (compatible : string -> string -> bool)
    (range_of : string -> option (semver_key -> bool)) (f : option regex)
    (obj : opts_obj) (rs : list raw_release) (v : version_rec) :
  filter_keep compatible range_of (fst (filter_obj detect compatible range_of f obj rs)) v =
  if c3_pre detect compatible (opts_defaults obj) v
  then tag_test range_of (opts_defaults obj) v else Ok false.
Proof. unfold filter_obj; apply filter_keep_shape. Qed.

Lemma tag_test_true (range_of : string -> option (semver_key -> bool))
    (o : opts_obj) (v : version_rec) :
  ok_true (tag_test range_of o v) =
  match o_tag o with
  | JStr t => str_eqb t "latest" || sat_true range_of (tag v) t
  | _ => false
  end.
Proof. unfold tag_test; destruct (o_tag o) as [| |t]; try reflexivity; destruct (str_eqb t "latest"); reflexivity. Qed.

Lemma filter_keep_obj_true (detect : string -> option string)
    (compatible : string -> string -> bool)
    (range_of : string -> option (semver_key -> bool)) (f : option regex)
    (obj : opts_obj) (rs : list raw_release) (v : version_rec) :
  ok_true (filter_keep compatible range_of (fst (filter_obj detect compatible range_of f obj rs)) v) =
  c3_selected detect compatible (sat_true range_of) (opts_defaults obj) v.
Proof.
  rewrite filter_keep_obj; unfold c3_selected.
  destruct (c3_pre detect compatible (opts_defaults obj) v); simpl; [|reflexivity].
  apply tag_test_true.
Qed.

Lemma semver_satisfies_ok (range_of : string -> option (semver_key -> bool))
    (x t : string) (b : bool) :
  semver_satisfies range_of x t = Ok b ->
  range_of t = None \/ str_falsy x = true \/ exists k, semver_parse x = Ok k.
Proof.
  unfold semver_satisfies; destruct (range_of t); [|auto].
  destruct (str_falsy x); [auto|].
  destruct (semver_parse x) as [k|e]; simpl; [eauto | discriminate].
Qed.


Lemma semver_satisfies_safe (range_of : string -> option (semver_key -> bool))
    (x t : string) :
  (range_of t = None \/ str_falsy x = true \/ exists k, semver_parse x = Ok k) ->
  exists b, semver_satisfies range_of x t = Ok b.
Proof.
  unfold semver_satisfies; intros [H|[H|[k H]]].
  - rewrite H; eauto.
  - destruct (range_of t); [rewrite H|]; eauto.
  - destruct (range_of t); [destruct (str_falsy x); [|rewrite H]|]; simpl; eauto.
Qed.

Lemma tag_test_safe_ok (range_of : string -> option (semver_key -> bool))
    (o : opts_obj) (v : version_rec) :
  tag_test_safe range_of o v -> exists b, tag_test range_of o v = Ok b.
Proof.
  unfold tag_test_safe, tag_test; destruct (o_tag o) as [| |t]; eauto.
  intros [H|H]; [rewrite H; eauto|].
  destruct (str_eqb t "latest"); [eauto|]; apply semver_satisfies_safe; exact H.
Qed.



Lemma filterM_ok {A} (p : A -> result bool) (l r : list A) :
  filterM p l = Ok r -> r = List.filter (fun x => ok_true (p x)) l.
Proof.
  revert r; induction l as [|x l IH]; intros r H; simpl in H |- *.
  - injection H as <-; reflexivity.
  - destruct (p x) as [b|e]; simpl in H; [|discriminate].
    destruct (filterM p l) as [r'|e]; simpl in H; [|discriminate].
    injection H as <-; rewrite <- (IH r' eq_refl); destruct b; reflexivity.
Qed.

Lemma filterM_total {A} (p : A -> result bool) (l : list A) :
  (forall x, In x l -> exists b, p x = Ok b) ->
  filterM p l = Ok (List.filter (fun x => ok_true (p x)) l).
Proof.
  induction l as [|x l IH]; intros H; simpl; [reflexivity|].
  destruct (H x (or_introl eq_refl)) as [b Hb]; rewrite Hb; simpl.
  rewrite IH by (intros y Hy; apply H; right; exact Hy); simpl.
  destruct b; reflexivity.
Qed.


Lemma filterM_ext {A} (p q : A -> result bool) (l : list A) :
  (forall x, p x = q x) -> filterM p l = filterM q l.
Proof. intros H; induction l as [|x l IH]; simpl; [reflexivity|]; rewrite H, IH; reflexivity. Qed.


Lemma filter_obj_snd (detect : string -> option string)
    (compatible : string -> string -> bool)
    (range_of : string -> option (semver_key -> bool)) (f : option regex)
    (obj : opts_obj) (rs : list raw_release) :
  snd (filter_obj detect compatible range_of f obj rs) =
    (vs <-? list_versions detect f rs ;;
     filterM (filter_keep compatible range_of
                (fst (filter_obj detect compatible range_of f obj rs))) vs).
Proof. reflexivity. Qed.

(** [filter] on the Versions of a successful [list()]: the selection when
    the tag test cannot throw on a Version that passes the channel and
    platform tests, and otherwise semver's error on the first such Version
    whose tag it cannot parse. *)
Lemma filter_obj_ok (detect : string -> option string)
    (compatible : string -> string -> bool)
    (range_of : string -> option (semver_key -> bool)) (f : option regex)
    (obj : opts_obj) (rs : list raw_release) (vs : list version_rec) :
  list_versions detect f rs = Ok vs ->
  (forall v, In v vs -> c3_pre detect compatible (opts_defaults obj) v = true ->
             tag_test_safe range_of (opts_defaults obj) v) ->
  snd (filter_obj detect compatible range_of f obj rs) =
    Ok (List.filter (c3_selected detect compatible (sat_true range_of) (opts_defaults obj)) vs).
Proof.
  intros Hl Hs; rewrite filter_obj_snd, Hl; cbn [rbind].
  rewrite filterM_total.
  - f_equal; apply List.filter_ext; intros v; apply filter_keep_obj_true.
  - intros v Hv; rewrite filter_keep_obj.
    destruct (c3_pre detect compatible (opts_defaults obj) v) eqn:Hp; [|eauto].
    apply tag_test_safe_ok; auto.
Qed.

Lemma filter_obj_result (detect : string -> option string)
    (compatible : string -> string -> bool)
    (range_of : string -> option (semver_key -> bool)) (f : option regex)
    (obj : opts_obj) (rs : list raw_release) (r : list version_rec) :
  snd (filter_obj detect compatible range_of f obj rs) = Ok r ->
  exists vs, list_versions detect f rs = Ok vs /\
    r = List.filter (c3_selected detect compatible (sat_true range_of) (opts_defaults obj)) vs.
Proof.
  rewrite filter_obj_snd.
  destruct (list_versions detect f rs) as [vs|e]; cbn [rbind]; [|discriminate].
  intros H; exists vs; split; [reflexivity|].
  rewrite (filterM_ok _ _ _ H).
  apply List.filter_ext; intros v; apply filter_keep_obj_true.
Qed.





(** ** C6: filter with tag "latest" and list *)

Lemma filter_sublist {A} (p : A -> bool) (l : list A) : List.filter p l `sublist_of` l.
Proof.
  induction l as [|x l IH]; simpl; [constructor|].
  destruct (p x); [apply sublist_skip | apply sublist_cons]; exact IH.
Qed.

Lemma filter_all {A} (p : A -> bool) (l : list A) :
  (forall x, p x = true) -> List.filter p l = l.
Proof. intros H; induction l as [|x l IH]; simpl; [reflexivity|]; rewrite H, IH; reflexivity. Qed.

(** C6 (counterexample). In the specification's own scenario the beta
    release heads [list()] and [filter({tag: 'latest'})] keeps only the
    stable 1.0.0, which is not a prefix of [list()]. *)
Lemma filter_latest_not_prefix :
  exists l r,
    list_versions detect_simple None scenario_releases = Ok l /\
    snd (filter_obj detect_simple compatible_eq range_ge None
           (mkOpts (JStr "latest") JUndef JUndef) scenario_releases) = Ok r /\
    ~ (exists suf, l = r ++ suf).
Proof.
  do 2 eexists; split; [reflexivity|]; split; [reflexivity|].
  intros [suf H]; simpl in H; inversion H.
Qed.

(** C6 (amended).  With tag "latest" [filter] never compares tags.  When
    [list()] succeeds it returns exactly the Versions of [list()], in its
    order, that pass the channel test (the requested channel, "stable" by
    default, any channel for "*") and the platform test: an
    order-preserving subsequence of [list()], not in general a prefix.
    When [list()] fails it fails with the same error.  With channel "*"
    and no platform it returns [list()] itself. *)
Theorem filter_latest_sublist (detect : string -> option string)
    (compatible : string -> string -> bool)
    (range_of : string -> option (semver_key -> bool)) (f : option regex)
    (rs : list raw_release) (platform channel : jsval) :
  (forall vs, list_versions detect f rs = Ok vs ->
     snd (filter_obj detect compatible range_of f
            (mkOpts (JStr "latest") platform channel) rs) =
       Ok (List.filter (c3_pre detect compatible
                          (opts_defaults (mkOpts (JStr "latest") platform channel))) vs) /\
     List.filter (c3_pre detect compatible
                    (opts_defaults (mkOpts (JStr "latest") platform channel))) vs
       `sublist_of` vs) /\
  (forall e, list_versions detect f rs = Err e ->
     snd (filter_obj detect compatible range_of f
            (mkOpts (JStr "latest") platform channel) rs) = Err e) /\
  snd (filter_obj detect compatible range_of f
         (mkOpts (JStr "latest") JUndef (JStr "*")) rs) = list_versions detect f rs.
Proof.
  assert (L : forall pl ch vs, list_versions detect f rs = Ok vs ->
            snd (filter_obj detect compatible range_of f (mkOpts (JStr "latest") pl ch) rs) =
            Ok (List.filter (c3_pre detect compatible
                               (opts_defaults (mkOpts (JStr "latest") pl ch))) vs)).
  { intros pl ch vs Hl.
    rewrite (filter_obj_ok detect compatible range_of f _ rs vs Hl).
    - f_equal; apply List.filter_ext; intros v.
      unfold c3_selected; simpl; apply andb_true_r.
    - intros v _ _; unfold tag_test_safe; simpl; left; reflexivity. }
  split; [|split].
  - intros vs Hl; split; [exact (L _ _ _ Hl) | apply filter_sublist].
  - intros e He; rewrite filter_obj_snd, He; reflexivity.
  - destruct (list_versions detect f rs) as [vs|e] eqn:Hl.
    + rewrite (L _ _ vs eq_refl); f_equal; apply filter_all; intros v; reflexivity.
    + rewrite filter_obj_snd, Hl; reflexivity.
Qed.

Lemma filter_latest_sublist_witness :
  list_versions detect_simple None scenario_releases =
    Ok (ok_or_nil (list_versions detect_simple None scenario_releases)) /\
  snd (filter_obj detect_simple compatible_eq range_ge None
         (mkOpts (JStr "latest") JUndef JUndef) scenario_releases) =
    Ok (List.filter (c3_pre detect_simple compatible_eq
                       (opts_defaults (mkOpts (JStr "latest") JUndef JUndef)))
                    (ok_or_nil (list_versions detect_simple None scenario_releases))).
Proof.
  split; [reflexivity|].
  apply (filter_latest_sublist detect_simple compatible_eq range_ge None
           scenario_releases JUndef JUndef).
  reflexivity.
Defined.

(** ** C7: extractChannel *)

Lemma js_split_prefix (c : ascii) (pre r : string) :
  no_char c pre -> js_split c (String.append pre (String c r)) = pre :: js_split c r.
Proof.
  induction pre as [|a pre IH]; intros H; simpl.
  - rewrite Ascii.eqb_refl; reflexivity.
  - unfold no_char in H; simpl in H; apply andb_prop in H as [Ha H'].
    rewrite (IH H'). apply negb_true_iff in Ha; rewrite Ha; reflexivity.
Qed.

Lemma js_split_whole (c : ascii) (s : string) : no_char c s -> js_split c s = [s].
Proof.
  induction s as [|a s IH]; intros H; simpl; [reflexivity|].
  unfold no_char in H; simpl in H; apply andb_prop in H as [Ha H'].
  rewrite (IH H'). apply negb_true_iff in Ha; rewrite Ha; reflexivity.
Qed.

Lemma string_append_empty (s : string) : String.append s "" = s.
Proof. induction s as [|a s IH]; [reflexivity|]; exact (f_equal (String a) IH). Qed.

Lemma js_split_head (c : ascii) (s r : string) :
  no_char c s -> (r = "" \/ exists t, r = String c t) ->
  exists rest, js_split c (String.append s r) = s :: rest.
Proof.
  intros Hs [-> | [t ->]].
  - exists []; rewrite string_append_empty; apply js_split_whole; assumption.
  - exists (js_split c t); apply js_split_prefix; assumption.
Qed.

Lemma extractChannel_source (f : option regex) (tag s : string) :
  channel_source f tag s -> extractChannel tag f = Ok (getSuffix s).
Proof.
  intros [[-> ->] | (re & m & -> & Hm & Hv & Hf)]; simpl; [reflexivity|].
  rewrite Hm; unfold version_group_falsy; rewrite Hv, Hf; reflexivity.
Qed.

(** C7 (counterexample). The channel ends at the next ['-'] as well:
    for "1.0.0-beta-2" the text after the first dash up to the next ['.']
    is "beta-2", the channel is "beta". *)
Lemma extractChannel_second_dash :
  extractChannel "1.0.0-beta-2" None = Ok "beta" /\ "beta" <> "beta-2".
Proof. split; [reflexivity | discriminate]. Qed.

(** C7 (amended). On the string it splits (the tag, or the non-empty
    [version] group of a matching filter), extractChannel returns
    ["stable"] when there is no ['-'] or the segment between the first ['-']
    and the next ['-'] is empty; when that segment starts with a character
    other than ['.'], it returns the segment up to its first ['.'], a
    non-empty token.  A matching filter without [version] group yields
    ["stable"]. *)
Theorem extractChannel_amended :
  (forall f tag s, channel_source f tag s -> no_char "-" s ->
     extractChannel tag f = Ok "stable") /\
  (forall f tag pre seg rest,
     channel_source f tag (String.append pre (String "-" (String.append seg rest))) ->
     no_char "-" pre -> no_char "-" seg ->
     (rest = "" \/ exists t, rest = String "-" t) ->
     (seg = "" -> extractChannel tag f = Ok "stable") /\
     (forall d r2, seg = String.append d r2 -> d <> "" -> no_char "." d ->
        (r2 = "" \/ exists t, r2 = String "." t) ->
        extractChannel tag f = Ok d)) /\
  (forall tag re m, re tag = Some m -> version_group_falsy m = true ->
     extractChannel tag (Some re) = Ok "stable").
Proof.
  split; [|split].
  - intros f tag s Hsrc Hno.
    rewrite (extractChannel_source _ _ _ Hsrc).
    unfold getSuffix; rewrite (js_split_whole _ _ Hno); reflexivity.
  - intros f tag pre seg rest Hsrc Hpre Hseg Hrest.
    rewrite (extractChannel_source _ _ _ Hsrc).
    unfold getSuffix; rewrite (js_split_prefix _ _ _ Hpre).
    destruct (js_split_head "-" seg rest Hseg Hrest) as [rest' ->]; simpl.
    split.
    + intros ->; reflexivity.
    + intros d r2 -> Hd Hnd Hr2.
      destruct d as [|a d']; [congruence|]; simpl.
      destruct (js_split_head "." (String a d') r2 Hnd Hr2) as [r' Hr'].
      simpl in Hr'; rewrite Hr'; reflexivity.
  - intros tag re m Hm Hf; simpl; rewrite Hm, Hf; reflexivity.
Qed.

Lemma extractChannel_amended_witness :
  no_char "-" "1.0.0" /\ no_char "." "rc" /\ extractChannel "1.0.0-rc.1" None = Ok "rc".
Proof.
  split; [reflexivity|]; split; [reflexivity|].
  destruct extractChannel_amended as [_ [H2 _]].
  apply (proj2 (H2 None "1.0.0-rc.1" "1.0.0" "rc.1" ""
                   (or_introl (conj eq_refl eq_refl)) eq_refl eq_refl (or_introl eq_refl))
               "rc" ".1" eq_refl).
  - discriminate.
  - reflexivity.
  - right; exists "1"; reflexivity.
Defined.

(** ** C8: channels *)








(** ** C10: filter updates the caller's options object *)

(** C10. [filter(opts)] writes the merged defaults into the caller's
    object itself (tag, channel, and a falsy platform; a truthy one is
    replaced by its detected platform) and touches no other object; so when
    the object had no tag and nothing is found, [resolve] reports the tag
    "latest". *)
Theorem filter_mutates_options (detect : string -> option string)
    (compatible : string -> string -> bool)
    (range_of : string -> option (semver_key -> bool)) (f : option regex)
    (h : gmap nat opts_obj) (l : nat) (obj : opts_obj) (rs : list raw_release)
    (Hobj : h !! l = Some obj) :
  (exists o', fst (filter detect compatible range_of f h (Some l) rs) !! l = Some o' /\
     o_tag o' = o_tag (opts_defaults obj) /\
     o_channel o' = o_channel (opts_defaults obj) /\
     (truthy (o_platform (opts_defaults obj)) = false ->
      o_platform o' = o_platform (opts_defaults obj))) /\
  (forall l', l' <> l ->
     fst (filter detect compatible range_of f h (Some l) rs) !! l' = h !! l') /\
  (o_tag obj = JUndef ->
   snd (filter detect compatible range_of f h (Some l) rs) = Ok [] ->
   snd (resolve detect compatible range_of f h (Some l) rs) =
     Err (Error "Version not found: latest")).
Proof.
  split; [|split].
  - exists (fst (filter_obj detect compatible range_of f obj rs)).
    unfold filter; rewrite Hobj; simpl.
    destruct (filter_obj detect compatible range_of f obj rs) as [o' r] eqn:Hf.
    simpl; rewrite lookup_insert_eq.
    split; [reflexivity|].
    replace o' with (fst (filter_obj detect compatible range_of f obj rs))
      by (rewrite Hf; reflexivity).
    split; [exact (filter_obj_tag detect compatible range_of f obj rs)|].
    split; [exact (filter_obj_channel detect compatible range_of f obj rs)|].
    exact (filter_obj_platform detect compatible range_of f obj rs).
  - intros l' Hne; unfold filter.
    destruct (filter_obj detect compatible range_of f
                (default empty_opts (h !! l)) rs) as [o' r].
    simpl; apply lookup_insert_ne; congruence.
  - intros Htag Hempty.
    rewrite (resolve_not_found_object detect compatible range_of f h l rs Hempty), Hobj.
    simpl.
    rewrite Htag; reflexivity.
Qed.

Lemma filter_mutates_options_witness :
  caller_heap !! 0%nat = Some (mkOpts JUndef JUndef (JStr "nightly")) /\
  snd (resolve detect_simple compatible_eq range_ge None caller_heap (Some 0%nat)
         scenario_releases) = Err (Error "Version not found: latest").
Proof.
  split; [reflexivity|].
  destruct (filter_mutates_options detect_simple compatible_eq range_ge None
              caller_heap 0%nat (mkOpts JUndef JUndef (JStr "nightly")) scenario_releases
              eq_refl) as (_ & _ & H3).
  apply H3; [reflexivity | vm_compute; reflexivity].
Defined.

(** ** Further properties of the catalog and of the routes *)

Lemma normalizeTag_none (t : string) :
  normalizeTag t None = Ok (match t with String "v" rest => rest | _ => t end).
Proof.
  destruct t as [|a t]; [reflexivity|].
  destruct a as [[] [] [] [] [] [] [] []]; reflexivity.
Qed.

Lemma mapM_in {A B} (g : A -> result B) (l : list A) (ys : list B) (y : B) :
  mapM g l = Ok ys -> In y ys -> exists x, In x l /\ g x = Ok y.
Proof.
  revert ys; induction l as [|x l IH]; intros ys H Hy; simpl in H.
  - inversion H; subst; destruct Hy.
  - destruct (g x) as [y0|e] eqn:Hx; simpl in H; [|discriminate].
    destruct (mapM g l) as [ys'|e] eqn:Hl; simpl in H; [|discriminate].
    inversion H; subst.
    destruct Hy as [<-|Hy]; [exists x; simpl; auto|].
    destruct (IH ys' eq_refl Hy) as (x' & Hx' & Hg); exists x'; simpl; auto.
Qed.

Lemma compact_in {A} (l : list (option A)) (x : A) : In x (compact l) -> In (Some x) l.
Proof.
  induction l as [|[y|] l IH]; simpl; [tauto| |auto].
  intros [<-|H]; auto.
Qed.

Lemma listed_origin (detect : string -> option string) (f : option regex)
    (rs : list raw_release) (vs : list version_rec) (v : version_rec) :
  list_versions detect f rs = Ok vs -> In v vs ->
  exists r, In r rs /\ normalizeVersion detect r f = Ok (Some v).
Proof.
  unfold list_versions, normalized.
  destruct (mapM (fun r => normalizeVersion detect r f) rs) as [ys|e] eqn:Hm;
    simpl; [|discriminate].
  intros Hs Hv.
  apply (Permutation_in _ (Permutation_sym (sortM_perm _ _ Hs))) in Hv.
  apply compact_in in Hv.
  exact (mapM_in _ _ _ _ Hm Hv).
Qed.

Lemma normalizeVersion_some (detect : string -> option string)
    (r : raw_release) (f : option regex) (v : version_rec) :
  normalizeVersion detect r f = Ok (Some v) ->
  draft r = false /\
  (forall re, f = Some re -> regex_test re (tag_name r) = true) /\
  platforms v = compact (map (asset_of detect) (assets r)) /\
  normalizeTag (tag_name r) f = Ok (version v) /\
  tag v = hd "" (js_split "-" (version v)) /\
  extractChannel (tag_name r) f = Ok (channel v) /\
  notes v = default "" (body r) /\ published_at v = r_published_at r.
Proof.
  unfold normalizeVersion.
  destruct (draft r); [discriminate|].
  intros H.
  assert (Hre : forall re, f = Some re -> regex_test re (tag_name r) = true).
  { intros re ->. destruct (regex_test re (tag_name r)); [reflexivity|discriminate]. }
  assert (H' : (v0 <-? normalizeTag (tag_name r) f ;;
                v' <-? normalizeTag (tag_name r) f ;;
                ch <-? extractChannel (tag_name r) f ;;
                Ok (Some (mkVersion v0 (hd "" (js_split "-" v')) ch
                                    (default "" (body r)) (r_published_at r)
                                    (compact (map (asset_of detect) (assets r))))))
              = Ok (Some v)).
  { destruct f as [re|]; [|exact H].
    rewrite (Hre re eq_refl) in H; exact H. }
  destruct (normalizeTag (tag_name r) f) as [s|e] eqn:Hn; simpl in H'; [|discriminate].
  destruct (extractChannel (tag_name r) f) as [ch|e] eqn:Hc; simpl in H'; [|discriminate].
  inversion H'; subst; simpl.
  repeat split; auto.
Qed.

Lemma no_char_cons (d a : ascii) (s : string) :
  no_char d (String a s) <-> Ascii.eqb a d = false /\ no_char d s.
Proof.
  unfold no_char; simpl; rewrite andb_true_iff, negb_true_iff; reflexivity.
Qed.

Lemma js_split_sep (c : ascii) (s : string) : Forall (no_char c) (js_split c s).
Proof.
  induction s as [|a s IH]; simpl; [repeat constructor|].
  destruct (Ascii.eqb a c) eqn:Ha; [constructor; [reflexivity|exact IH]|].
  destruct (js_split c s) as [|h t]; [repeat constructor; apply no_char_cons; split; auto; reflexivity|].
  inversion IH; subst. constructor; [apply no_char_cons; auto|assumption].
Qed.

Lemma js_split_keep (c d : ascii) (s : string) :
  no_char d s -> Forall (no_char d) (js_split c s).
Proof.
  induction s as [|a s IH]; intros Hs; simpl; [repeat constructor; exact Hs|].
  apply no_char_cons in Hs as [Ha Hs].
  specialize (IH Hs).
  destruct (Ascii.eqb a c); [constructor; [reflexivity|exact IH]|].
  destruct (js_split c s) as [|h t]; [repeat constructor; apply no_char_cons; split; auto; reflexivity|].
  inversion IH; subst. constructor; [apply no_char_cons; auto|assumption].
Qed.

Lemma hd_forall (P : string -> Prop) (l : list string) :
  Forall P l -> P "" -> P (hd "" l).
Proof. destruct l; simpl; [auto|]; intros H _; inversion H; auto. Qed.

Lemma js_split_cons (c : ascii) (s : string) : exists h t, js_split c s = h :: t.
Proof.
  induction s as [|a s IH]; simpl; [eauto|].
  destruct (Ascii.eqb a c); [eauto|].
  destruct IH as (h & t & ->); eauto.
Qed.

Lemma js_split_hd (c : ascii) (s : string) :
  exists rest, s = String.append (hd "" (js_split c s)) rest /\
               (rest = "" \/ exists t, rest = String c t).
Proof.
  induction s as [|a s IH]; simpl; [exists ""; auto|].
  destruct (Ascii.eqb a c) eqn:Ha.
  - apply Ascii.eqb_eq in Ha; subst. exists (String c s); simpl; eauto.
  - destruct IH as (rest & Hs & Hr).
    destruct (js_split_cons c s) as (h & t & Ht).
    rewrite Ht in Hs |- *; simpl in Hs |- *.
    exists rest; split; [rewrite Hs at 1; reflexivity|exact Hr].
Qed.

Lemma getSuffix_chars (s : string) :
  no_char "-" (getSuffix s) /\ no_char "." (getSuffix s).
Proof.
  unfold getSuffix.
  destruct (nth_error (js_split "-" s) 1) as [suf|] eqn:E; [|split; reflexivity].
  destruct (str_falsy suf); [split; reflexivity|].
  apply nth_error_In in E.
  pose proof (proj1 (List.Forall_forall _ _) (js_split_sep "-" s) suf E) as Hsuf.
  split; apply hd_forall; try reflexivity.
  - apply js_split_keep; exact Hsuf.
  - apply js_split_sep.
Qed.

Lemma extractChannel_chars (t : string) (f : option regex) (ch : string) :
  extractChannel t f = Ok ch -> no_char "-" ch /\ no_char "." ch.
Proof.
  unfold extractChannel.
  destruct f as [re|]; [|intros H; inversion H; apply getSuffix_chars].
  destruct (re t) as [m|]; [|discriminate].
  destruct (version_group_falsy m); intros H; inversion H;
    [split; reflexivity | apply getSuffix_chars].
Qed.

Lemma insertM_defined (x : version_rec) (l : list version_rec) :
  (exists k, semver_parse (tag x) = Ok k) ->
  Forall (fun v => exists k, semver_parse (tag v) = Ok k) l ->
  exists r, insertM x l = Ok r.
Proof.
  intros [kx Hx]; induction l as [|y l IH]; intros Hl; simpl; [eauto|].
  inversion Hl as [|? ? [ky Hy] Hl']; subst.
  rewrite compareVersions_spec, Hx, Hy; simpl.
  destruct (cmp_to_Z (key_cmp kx ky) <=? 0); [eauto|].
  destruct (IH Hl') as [r ->]; simpl; eauto.
Qed.

Lemma sortM_defined (l : list version_rec) :
  Forall (fun v => exists k, semver_parse (tag v) = Ok k) l ->
  exists r, sortM l = Ok r.
Proof.
  induction l as [|x l IH]; intros Hl; simpl; [eauto|].
  inversion Hl as [|? ? Hx Hl']; subst.
  destruct (IH Hl') as [s Hs]; rewrite Hs; simpl.
  apply insertM_defined; [exact Hx|].
  rewrite List.Forall_forall in Hl' |- *; intros v Hv.
  apply Hl'. apply (Permutation_in _ (Permutation_sym (sortM_perm _ _ Hs))); exact Hv.
Qed.

Lemma cmp_to_Z_sym (a b : semver_key) :
  cmp_to_Z (key_cmp b a) = - cmp_to_Z (key_cmp a b).
Proof. unfold cmp_to_Z; key_cases. Qed.

Lemma cmp_to_Z_refl (a : semver_key) : cmp_to_Z (key_cmp a a) = 0.
Proof. unfold cmp_to_Z; key_cases. Qed.

Lemma cmp_to_Z_trans (a b c : semver_key) :
  cmp_to_Z (key_cmp a b) <= 0 -> cmp_to_Z (key_cmp b c) <= 0 ->
  cmp_to_Z (key_cmp a c) <= 0.
Proof. unfold cmp_to_Z; key_cases. Qed.

Lemma list_versions_sorted (detect : string -> option string) (f : option regex)
    (rs : list raw_release) (vs : list version_rec) :
  list_versions detect f rs = Ok vs -> StronglySorted tag_ge vs.
Proof.
  unfold list_versions.
  destruct (normalized detect f rs) as [ins|e]; simpl; [|discriminate].
  apply sortM_sorted.
Qed.

Lemma StronglySorted_filter {A} (R : A -> A -> Prop) (p : A -> bool) (l : list A) :
  StronglySorted R l -> StronglySorted R (List.filter p l).
Proof.
  induction l as [|x l IH]; intros H; simpl; [constructor|].
  inversion H as [|? ? Hl Hx]; subst.
  destruct (p x); [|auto].
  constructor; [auto|].
  rewrite List.Forall_forall in Hx |- *; intros y Hy.
  apply filter_In in Hy as [Hy _]; auto.
Qed.

Lemma filter_cons_member {A} (p : A -> bool) (l rest : list A) (v w : A) :
  List.filter p l = v :: rest -> In w l -> p w = true -> w = v \/ In w rest.
Proof.
  intros H Hw Hp.
  assert (Hin : In w (List.filter p l)) by (apply filter_In; auto).
  rewrite H in Hin; destruct Hin as [<-|Hin]; auto.
Qed.

Lemma filter_obj_head (detect : string -> option string)
    (compatible : string -> string -> bool)
    (range_of : string -> option (semver_key -> bool)) (f : option regex)
    (obj : opts_obj) (rs : list raw_release) (v : version_rec) (rest : list version_rec) :
  snd (filter_obj detect compatible range_of f obj rs) = Ok (v :: rest) ->
  exists vs, list_versions detect f rs = Ok vs /\
    List.filter (c3_selected detect compatible (sat_true range_of) (opts_defaults obj)) vs
      = v :: rest /\
    Forall (tag_ge v) rest.
Proof.
  intros H; destruct (filter_obj_result _ _ _ _ _ _ _ H) as (vs & Hl & Hf).
  exists vs; split; [exact Hl|]; split; [symmetry; exact Hf|].
  pose proof (StronglySorted_filter _
                (c3_selected detect compatible (sat_true range_of) (opts_defaults obj)) _
                (list_versions_sorted _ _ _ _ Hl)) as Hs.
  rewrite <- Hf in Hs. inversion Hs; assumption.
Qed.

Lemma resolve_head (detect : string -> option string)
    (compatible : string -> string -> bool)
    (range_of : string -> option (semver_key -> bool)) (f : option regex)
    (h : gmap nat opts_obj) (opts : option nat) (rs : list raw_release) (v : version_rec) :
  snd (resolve detect compatible range_of f h opts rs) = Ok v ->
  exists vs rest, list_versions detect f rs = Ok vs /\
    List.filter (c3_selected detect compatible (sat_true range_of)
                   (opts_defaults (match opts with
                                   | Some l => default empty_opts (h !! l)
                                   | None => empty_opts
                                   end))) vs = v :: rest /\
    Forall (tag_ge v) rest.
Proof.
  set (obj := match opts with Some l => default empty_opts (h !! l) | None => empty_opts end).
  assert (E : snd (filter detect compatible range_of f h opts rs) =
              snd (filter_obj detect compatible range_of f obj rs)).
  { unfold filter, obj; destruct opts as [l|]; [|reflexivity].
    destruct (filter_obj detect compatible range_of f
                (default empty_opts (h !! l)) rs) as [o' r]; reflexivity. }
  unfold resolve.
  destruct (filter detect compatible range_of f h opts rs) as [h' r] eqn:Hf.
  simpl in E |- *.
  destruct r as [[|v' rest]|e]; simpl; intros H.
  - destruct opts; discriminate.
  - inversion H; subst.
    destruct (filter_obj_head detect compatible range_of f obj rs v rest
                (eq_sym E)) as (vs & Hl & Hsel & Hs).
    exists vs, rest; auto.
  - discriminate.
Qed.

Lemma find_filename_some (n : string) (l : list asset) (a : asset) :
  find_filename n l = Some a -> a_filename a = n /\ In a l.
Proof.
  unfold find_filename; intros H.
  apply List.find_some in H as [Hin Heq].
  unfold str_eqb in Heq; apply String.eqb_eq in Heq; auto.
Qed.

Lemma channels_step_absent (ch : string) (l : list version_rec) (m : gmap string summary) :
  inherited_key ch = true -> m !! ch = None -> fold_left channels_step l m !! ch = None.
Proof.
  intros Hk; revert m; induction l as [|v l IH]; intros m Hm; simpl; [exact Hm|].
  apply IH. unfold channels_step.
  destruct (inherited_key (channel v) && bool_decide (m !! channel v = None)) eqn:E;
    [exact Hm|].
  destruct (decide (channel v = ch)) as [<-|Hne].
  - rewrite Hk, bool_decide_eq_true_2 in E by exact Hm; discriminate.
  - rewrite lookup_insert_ne by exact Hne; exact Hm.
Qed.

Lemma compact_asset_of (detect : string -> option string) (l : list raw_asset) :
  map a_filename (compact (map (asset_of detect) l)) =
    List.filter (fun n => match detect n with Some _ => true | None => false end)
                (map ra_name l) /\
  Forall (fun a => detect (a_filename a) = Some (a_type a))
         (compact (map (asset_of detect) l)).
Proof.
  induction l as [|x l [IH1 IH2]]; simpl; [split; constructor|].
  destruct (asset_of detect x) as [b|] eqn:Ha; unfold asset_of in Ha;
    destruct (detect (ra_name x)) as [p|] eqn:Hd; try discriminate.
  - injection Ha as <-; simpl.
    rewrite IH1; split; [reflexivity|].
    constructor; [exact Hd|exact IH2].
  - simpl; auto.
Qed.

(** X2. Every Version of [list()] comes from a release of the backend that
    is not a draft and whose tag passes the tag filter; its version, channel,
    notes (empty for a null body) and date are those of that release. *)
Theorem list_versions_origin (detect : string -> option string) (f : option regex)
    (rs : list raw_release) (vs : list version_rec) (v : version_rec)
    (H : list_versions detect f rs = Ok vs) (Hv : In v vs) :
  exists r, In r rs /\ draft r = false /\
    (forall re, f = Some re -> regex_test re (tag_name r) = true) /\
    normalizeTag (tag_name r) f = Ok (version v) /\
    extractChannel (tag_name r) f = Ok (channel v) /\
    notes v = default "" (body r) /\ published_at v = r_published_at r.
Proof.
  destruct (listed_origin detect f rs vs v H Hv) as (r & Hr & Hn).
  destruct (normalizeVersion_some detect r f v Hn)
    as (Hd & Hre & _ & Htag & _ & Hch & Hnotes & Hpub).
  exists r; repeat split; auto.
Qed.

Lemma list_versions_origin_witness :
  exists v, In v (ok_or_nil (list_versions detect_simple None sample_releases)) /\
  exists r, In r sample_releases /\ draft r = false /\
    (forall re, None = Some re -> regex_test re (tag_name r) = true) /\
    normalizeTag (tag_name r) None = Ok (version v) /\
    extractChannel (tag_name r) None = Ok (channel v) /\
    notes v = default "" (body r) /\ published_at v = r_published_at r.
Proof.
  eexists; split; [vm_compute; left; reflexivity|].
  apply (list_versions_origin detect_simple None sample_releases
           (ok_or_nil (list_versions detect_simple None sample_releases))).
  - vm_compute; reflexivity.
  - vm_compute; left; reflexivity.
Defined.

(** X3. In every Version of [list()] the tag is the version cut at its
    first ['-'] and has no ['-']; the channel has neither ['-'] nor ['.']. *)
Theorem list_versions_tag_channel_shape (detect : string -> option string)
    (f : option regex) (rs : list raw_release) (vs : list version_rec) (v : version_rec)
    (H : list_versions detect f rs = Ok vs) (Hv : In v vs) :
  no_char "-" (tag v) /\ no_char "-" (channel v) /\ no_char "." (channel v) /\
  exists rest, version v = String.append (tag v) rest /\
               (rest = "" \/ exists t, rest = String "-" t).
Proof.
  destruct (listed_origin detect f rs vs v H Hv) as (r & _ & Hn).
  destruct (normalizeVersion_some detect r f v Hn)
    as (_ & _ & _ & _ & Htag & Hch & _ & _).
  destruct (extractChannel_chars _ _ _ Hch) as [Hc1 Hc2].
  split; [|split; [exact Hc1|split; [exact Hc2|]]].
  - rewrite Htag; apply hd_forall; [apply js_split_sep|reflexivity].
  - rewrite Htag; apply js_split_hd.
Qed.

Lemma list_versions_tag_channel_shape_witness :
  exists v, In v (ok_or_nil (list_versions detect_simple None sample_releases)) /\
  no_char "-" (tag v) /\ no_char "-" (channel v) /\ no_char "." (channel v) /\
  exists rest, version v = String.append (tag v) rest /\
               (rest = "" \/ exists t, rest = String "-" t).
Proof.
  eexists; split; [vm_compute; left; reflexivity|].
  apply (list_versions_tag_channel_shape detect_simple None sample_releases
           (ok_or_nil (list_versions detect_simple None sample_releases))).
  - vm_compute; reflexivity.
  - vm_compute; left; reflexivity.
Defined.

(** X4. The assets of a Version of [list()] are the assets of its release
    whose file name the platform classifier recognises, in the release's
    order, each typed with the platform detected from its file name. *)
Theorem list_versions_assets (detect : string -> option string) (f : option regex)
    (rs : list raw_release) (vs : list version_rec) (v : version_rec)
    (H : list_versions detect f rs = Ok vs) (Hv : In v vs) :
  exists r, In r rs /\
    map a_filename (platforms v) =
      List.filter (fun n => match detect n with Some _ => true | None => false end)
                  (map ra_name (assets r)) /\
    Forall (fun a => detect (a_filename a) = Some (a_type a)) (platforms v).
Proof.
  destruct (listed_origin detect f rs vs v H Hv) as (r & Hr & Hn).
  destruct (normalizeVersion_some detect r f v Hn) as (_ & _ & Hp & _).
  exists r; rewrite Hp; split; [exact Hr|]; apply compact_asset_of.
Qed.

Lemma list_versions_assets_witness :
  exists v, In v (ok_or_nil (list_versions detect_simple None sample_releases)) /\
  exists r, In r sample_releases /\
    map a_filename (platforms v) =
      List.filter (fun n => match detect_simple n with Some _ => true | None => false end)
                  (map ra_name (assets r)) /\
    Forall (fun a => detect_simple (a_filename a) = Some (a_type a)) (platforms v).
Proof.
  eexists; split; [vm_compute; left; reflexivity|].
  apply (list_versions_assets detect_simple None sample_releases
           (ok_or_nil (list_versions detect_simple None sample_releases))).
  - vm_compute; reflexivity.
  - vm_compute; left; reflexivity.
Defined.

(** X5. When every normalised Version has a tag semver can parse,
    [list()] succeeds. *)
Theorem list_versions_defined (detect : string -> option string) (f : option regex)
    (rs : list raw_release) (ins : list version_rec)
    (H : normalized detect f rs = Ok ins)
    (Hp : Forall (fun v => exists k, semver_parse (tag v) = Ok k) ins) :
  exists vs, list_versions detect f rs = Ok vs.
Proof.
  unfold list_versions; rewrite H; simpl.
  apply sortM_defined; exact Hp.
Qed.

Lemma list_versions_defined_witness :
  normalized detect_simple None update_releases =
    Ok (ok_or_nil (normalized detect_simple None update_releases)) /\
  exists vs, list_versions detect_simple None update_releases = Ok vs.
Proof.
  split; [vm_compute; reflexivity|].
  apply (list_versions_defined detect_simple None update_releases
           (ok_or_nil (normalized detect_simple None update_releases))).
  - vm_compute; reflexivity.
  - vm_compute; repeat constructor; eexists; reflexivity.
Defined.

(** X6. On Versions whose tags semver parses, [compareVersions] is a
    consistent comparator: it answers 0 on equal arguments, its answer
    changes sign when the arguments are swapped, and "sorts before or
    with" ([<= 0]) is transitive. *)
Theorem compareVersions_consistent (u v w : version_rec) (a b c : semver_key)
    (Hu : semver_parse (tag u) = Ok a) (Hv : semver_parse (tag v) = Ok b)
    (Hw : semver_parse (tag w) = Ok c) :
  compareVersions u u = Ok 0 /\
  (exists z, compareVersions u v = Ok z /\ compareVersions v u = Ok (- z)) /\
  (forall z1 z2, compareVersions u v = Ok z1 -> compareVersions v w = Ok z2 ->
     z1 <= 0 -> z2 <= 0 -> exists z3, compareVersions u w = Ok z3 /\ z3 <= 0).
Proof.
  rewrite !compareVersions_spec, Hu, Hv, Hw.
  split; [rewrite cmp_to_Z_refl; reflexivity|].
  split; [eexists; split; [reflexivity|rewrite cmp_to_Z_sym; reflexivity]|].
  intros z1 z2 H1 H2 Hz1 Hz2.
  injection H1 as <-; injection H2 as <-.
  eexists; split; [reflexivity|]. eapply cmp_to_Z_trans; eauto.
Qed.

Lemma compareVersions_consistent_witness :
  compareVersions (mkVersion "1.0.0" "1.0.0" "stable" "" 1 [])
                  (mkVersion "1.1.0" "1.1.0" "stable" "" 2 []) = Ok 1 /\
  compareVersions (mkVersion "1.1.0" "1.1.0" "stable" "" 2 [])
                  (mkVersion "1.0.0" "1.0.0" "stable" "" 1 []) = Ok (-1).
Proof.
  destruct (compareVersions_consistent
              (mkVersion "1.0.0" "1.0.0" "stable" "" 1 [])
              (mkVersion "1.1.0" "1.1.0" "stable" "" 2 [])
              (mkVersion "2.0.0" "2.0.0" "stable" "" 3 [])
              (1, 0, 0) (1, 1, 0) (2, 0, 0) eq_refl eq_refl eq_refl)
    as (_ & (z & H1 & H2) & _).
  assert (Hz : z = 1) by (vm_compute in H1; congruence).
  subst z; split; assumption.
Defined.

Lemma filter_some_snd (detect : string -> option string)
    (compatible : string -> string -> bool)
    (range_of : string -> option (semver_key -> bool)) (f : option regex)
    (h : gmap nat opts_obj) (l : nat) (rs : list raw_release) :
  snd (filter detect compatible range_of f h (Some l) rs) =
    snd (filter_obj detect compatible range_of f (default empty_opts (h !! l)) rs).
Proof.
  unfold filter.
  destruct (filter_obj detect compatible range_of f (default empty_opts (h !! l)) rs);
    reflexivity.
Qed.

Lemma filter_none_selected {A} (p : A -> bool) (l : list A) :
  (forall x, In x l -> p x = false) -> List.filter p l = [].
Proof.
  induction l as [|x l IH]; intros H; simpl; [reflexivity|].
  rewrite (H x (or_introl eq_refl)); apply IH; intros y Hy; apply H; right; exact Hy.
Qed.

Lemma get_selected (detect : string -> option string)
    (compatible : string -> string -> bool)
    (range_of : string -> option (semver_key -> bool)) (t : string) (w : version_rec) :
  c3_selected detect compatible (sat_true range_of)
    (opts_defaults (default empty_opts
                      (<[0%nat := mkOpts (JStr t) JUndef JUndef]> (∅ : gmap nat opts_obj)
                         !! 0%nat))) w =
  str_eqb "stable" (channel w) && (str_eqb t "latest" || sat_true range_of (tag w) t).
Proof.
  rewrite lookup_insert_eq.
  unfold c3_selected, c3_pre, requested_platform; simpl.
  rewrite andb_true_r; reflexivity.
Qed.

Lemma get_pre (detect : string -> option string)
    (compatible : string -> string -> bool) (t : string) (w : version_rec) :
  c3_pre detect compatible
    (opts_defaults (default empty_opts
                      (<[0%nat := mkOpts (JStr t) JUndef JUndef]> (∅ : gmap nat opts_obj)
                         !! 0%nat))) w =
  str_eqb "stable" (channel w).
Proof.
  rewrite lookup_insert_eq.
  unfold c3_pre, requested_platform; simpl.
  apply andb_true_r.
Qed.

(** X7. [resolve(opts)] answers the first Version that [filter(opts)]
    selects from [list()], and its tag is semver-greater than or equal to
    the tag of every other Version selected. *)
Theorem resolve_newest (detect : string -> option string)
    (compatible : string -> string -> bool)
    (range_of : string -> option (semver_key -> bool)) (f : option regex)
    (h : gmap nat opts_obj) (opts : option nat) (rs : list raw_release) (v : version_rec)
    (H : snd (resolve detect compatible range_of f h opts rs) = Ok v) :
  exists vs rest, list_versions detect f rs = Ok vs /\
    List.filter (c3_selected detect compatible (sat_true range_of)
                   (opts_defaults (match opts with
                                   | Some l => default empty_opts (h !! l)
                                   | None => empty_opts
                                   end))) vs = v :: rest /\
    Forall (tag_ge v) rest.
Proof. exact (resolve_head detect compatible range_of f h opts rs v H). Qed.

Lemma resolve_newest_witness :
  exists v,
    snd (resolve detect_simple compatible_eq range_ge None
           (<[0%nat := mkOpts (JStr ">=1.0.0") JUndef (JStr "*")]> ∅) (Some 0%nat)
           sample_releases) = Ok v /\
    exists vs rest, list_versions detect_simple None sample_releases = Ok vs /\
      List.filter (c3_selected detect_simple compatible_eq (sat_true range_ge)
                     (opts_defaults (default empty_opts
                        ((<[0%nat := mkOpts (JStr ">=1.0.0") JUndef (JStr "*")]>
                            (∅ : gmap nat opts_obj)) !! 0%nat)))) vs = v :: rest /\
      Forall (tag_ge v) rest.
Proof.
  eexists; split; [reflexivity|].
  apply (resolve_newest detect_simple compatible_eq range_ge None
           (<[0%nat := mkOpts (JStr ">=1.0.0") JUndef (JStr "*")]> ∅) (Some 0%nat)
           sample_releases).
  vm_compute; reflexivity.
Defined.

(** X8. [get(tag)] only ever answers a Version of the "stable" channel:
    the Version of [list()] that comes first among the stable ones whose
    tag satisfies [tag] (any, for "latest"), so semver-greater than or
    equal to all of them. *)
Theorem get_stable (detect : string -> option string)
    (compatible : string -> string -> bool)
    (range_of : string -> option (semver_key -> bool)) (f : option regex)
    (rs : list raw_release) (t : string) (v : version_rec)
    (H : get detect compatible range_of f rs (JStr t) = Ok v) :
  exists vs, list_versions detect f rs = Ok vs /\ In v vs /\
    channel v = "stable" /\
    (str_eqb t "latest" || sat_true range_of (tag v) t) = true /\
    forall w, In w vs -> channel w = "stable" ->
      (str_eqb t "latest" || sat_true range_of (tag w) t) = true ->
      w = v \/ tag_ge v w.
Proof.
  unfold get, resolve_fresh in H.
  destruct (resolve_head _ _ _ _ _ _ _ _ H) as (vs & rest & Hl & Hf & Hs).
  assert (Hsel := get_selected detect compatible range_of t).
  assert (Hv : In v (List.filter (c3_selected detect compatible (sat_true range_of)
                     (opts_defaults (default empty_opts
                        (<[0%nat := mkOpts (JStr t) JUndef JUndef]> (∅ : gmap nat opts_obj)
                           !! 0%nat)))) vs)) by (rewrite Hf; left; reflexivity).
  apply filter_In in Hv as [Hv Hp].
  rewrite Hsel in Hp; apply andb_prop in Hp as [Hc Ht].
  unfold str_eqb in Hc; apply String.eqb_eq in Hc.
  exists vs; repeat split; auto.
  intros w Hw Hcw Htw.
  assert (Hpw : c3_selected detect compatible (sat_true range_of)
                  (opts_defaults (default empty_opts
                     (<[0%nat := mkOpts (JStr t) JUndef JUndef]> (∅ : gmap nat opts_obj)
                        !! 0%nat))) w = true).
  { rewrite Hsel, Htw, Hcw; reflexivity. }
  destruct (filter_cons_member _ _ _ _ _ Hf Hw Hpw) as [->|Hin]; [left; reflexivity|].
  right. rewrite List.Forall_forall in Hs; apply Hs; exact Hin.
Qed.

Lemma get_stable_witness :
  exists v,
    get detect_simple compatible_eq range_ge None sample_releases (JStr ">=1.0.0")
      = Ok v /\
    exists vs, list_versions detect_simple None sample_releases = Ok vs /\ In v vs /\
      channel v = "stable" /\
      (str_eqb ">=1.0.0" "latest" || sat_true range_ge (tag v) ">=1.0.0") = true /\
      forall w, In w vs -> channel w = "stable" ->
        (str_eqb ">=1.0.0" "latest" || sat_true range_ge (tag w) ">=1.0.0") = true ->
        w = v \/ tag_ge v w.
Proof.
  eexists; split; [reflexivity|].
  apply (get_stable detect_simple compatible_eq range_ge None sample_releases ">=1.0.0").
  vm_compute; reflexivity.
Defined.

(** X9. When semver answers [false], without throwing, for the tag of
    every Version of the "stable" channel and the range [tag] (not
    "latest"), [get(tag)] fails with "Version not found: " followed by the
    tag, whatever the other channels hold. *)
Theorem get_not_found (detect : string -> option string)
    (compatible : string -> string -> bool)
    (range_of : string -> option (semver_key -> bool)) (f : option regex)
    (rs : list raw_release) (t : string) (vs : list version_rec)
    (Hl : list_versions detect f rs = Ok vs)
    (Ht : str_eqb t "latest" = false)
    (Hn : forall w, In w vs -> channel w = "stable" ->
            semver_satisfies range_of (tag w) t = Ok false) :
  get detect compatible range_of f rs (JStr t) =
    Err (Error ("Version not found: " ++ t)).
Proof.
  unfold get, resolve_fresh.
  rewrite (resolve_not_found_object detect compatible range_of f _ 0%nat rs).
  - rewrite lookup_insert_eq; reflexivity.
  - rewrite filter_some_snd, (filter_obj_ok detect compatible range_of f _ rs vs Hl).
    + f_equal. apply filter_none_selected; intros w Hw.
      rewrite get_selected, Ht.
      destruct (str_eqb "stable" (channel w)) eqn:Hc; [|reflexivity].
      unfold str_eqb in Hc; apply String.eqb_eq in Hc.
      unfold sat_true; rewrite (Hn w Hw (eq_sym Hc)); reflexivity.
    + intros w Hw Hp; rewrite get_pre in Hp.
      unfold str_eqb in Hp; apply String.eqb_eq in Hp.
      rewrite lookup_insert_eq; unfold tag_test_safe; simpl; right.
      exact (semver_satisfies_ok _ _ _ _ (Hn w Hw (eq_sym Hp))).
Qed.

Lemma get_not_found_witness :
  list_versions detect_simple None sample_releases =
    Ok (ok_or_nil (list_versions detect_simple None sample_releases)) /\
  get detect_simple compatible_eq range_ge None sample_releases (JStr ">=2.0.0") =
    Err (Error "Version not found: >=2.0.0").
Proof.
  split; [vm_compute; reflexivity|].
  apply (get_not_found detect_simple compatible_eq range_ge None sample_releases
           ">=2.0.0" (ok_or_nil (list_versions detect_simple None sample_releases))).
  - vm_compute; reflexivity.
  - reflexivity.
  - intros w Hw Hc. vm_compute in Hw.
    repeat (destruct Hw as [<-|Hw]; [vm_compute in Hc |- *; first [reflexivity | discriminate]|]).
    destruct Hw.
Defined.

(** X10. [filter] with a platform name the classifier does not recognise
    selects exactly what it selects without a platform: the platform
    criterion is dropped, not failed. *)
Theorem filter_unknown_platform (detect : string -> option string)
    (compatible : string -> string -> bool)
    (range_of : string -> option (semver_key -> bool)) (f : option regex)
    (t c : jsval) (p : string) (rs : list raw_release) (Hp : detect p = None) :
  snd (filter_obj detect compatible range_of f (mkOpts t (JStr p) c) rs) =
    snd (filter_obj detect compatible range_of f (mkOpts t JNull c) rs).
Proof.
  rewrite !filter_obj_snd.
  destruct (list_versions detect f rs) as [vs|e]; cbn [rbind]; [|reflexivity].
  apply filterM_ext; intros v; rewrite !filter_keep_obj.
  assert (E : c3_pre detect compatible (opts_defaults (mkOpts t (JStr p) c)) v =
              c3_pre detect compatible (opts_defaults (mkOpts t JNull c)) v).
  { unfold c3_pre, requested_platform; simpl.
    destruct (negb (str_falsy p)); [rewrite Hp|]; reflexivity. }
  rewrite E; reflexivity.
Qed.

Lemma filter_unknown_platform_witness :
  detect_simple "solaris" = None /\
  snd (filter_obj detect_simple compatible_eq range_ge None
         (mkOpts (JStr "latest") (JStr "solaris") (JStr "*")) sample_releases) =
    snd (filter_obj detect_simple compatible_eq range_ge None
           (mkOpts (JStr "latest") JNull (JStr "*")) sample_releases).
Proof.
  split; [reflexivity|].
  apply filter_unknown_platform; reflexivity.
Defined.

(** X11. [channels()] never has an entry for a channel named like a
    property of [Object.prototype] (e.g. "constructor"), even when
    [list()] has Versions of that channel. *)
Theorem channels_inherited_absent (detect : string -> option string) (f : option regex)
    (rs : list raw_release) (m : gmap string summary) (ch : string)
    (Hk : inherited_key ch = true) (H : channels detect f rs = Ok m) :
  m !! ch = None.
Proof.
  unfold channels in H.
  destruct (list_versions detect f rs) as [vs|e]; simpl in H; [|discriminate].
  injection H as <-.
  apply channels_step_absent; [exact Hk|apply lookup_empty].
Qed.

Lemma channels_inherited_absent_witness :
  inherited_key "constructor" = true /\
  list_versions detect_simple None [release "v1.0.0-constructor" 3 None []] =
    Ok [mkVersion "1.0.0-constructor" "1.0.0" "constructor" "" 3 []] /\
  exists m, channels detect_simple None [release "v1.0.0-constructor" 3 None []] = Ok m /\
            m !! "constructor" = None.
Proof.
  split; [reflexivity|]; split; [reflexivity|].
  eexists; split; [reflexivity|].
  apply (channels_inherited_absent detect_simple None
           [release "v1.0.0-constructor" 3 None []] _ "constructor"); reflexivity.
Defined.

Lemma ge_range_not_latest (r : string) : str_eqb (">=" ++ r) "latest" = false.
Proof. reflexivity. Qed.

(** X12. When [onUpdate] offers an update, the offered Version is in
    [list()], its tag (the answer's name) differs from the client's tag
    and satisfies [>=] that tag, its channel is the requested one (or the
    request is "*"), and it passes [filter]'s platform test: when the
    platform [detect] gives for the route's one is non-empty and [detect]
    recognises it again as a non-empty platform, the Version has an asset
    compatible with that one; otherwise no platform criterion applies
    (X10).  It is semver-greater than or equal to every other Version that
    qualifies; the date is its [published_at]. *)
Theorem onUpdate_offer (detect : string -> option string)
    (compatible : string -> string -> bool)
    (range_of : string -> option (semver_key -> bool)) (f : option regex)
    (pp pc : option string) (pv : string) (rs : list raw_release)
    (name n ch : string) (d : Z)
    (H : onUpdate detect compatible range_of f pp pc pv rs =
           Ok (UpdateAvailable name n ch d)) :
  exists p vs v,
    pp = Some p /\ list_versions detect f rs = Ok vs /\ In v vs /\
    name = tag v /\ d = published_at v /\ ch = default "*" pc /\
    str_eqb name (hd "" (js_split "-" pv)) = false /\
    sat_true range_of name (">=" ++ hd "" (js_split "-" pv))%string = true /\
    c3_selected detect compatible (sat_true range_of)
      (mkOpts (JStr (">=" ++ hd "" (js_split "-" pv)))
              (match detect p with Some q => JStr q | None => JNull end) (JStr ch)) v
      = true /\
    forall w, In w vs ->
      c3_selected detect compatible (sat_true range_of)
        (mkOpts (JStr (">=" ++ hd "" (js_split "-" pv)))
                (match detect p with Some q => JStr q | None => JNull end) (JStr ch)) w
        = true ->
      w = v \/ tag_ge v w.
Proof.
  unfold onUpdate in H.
  set (req := hd "" (js_split "-" pv)) in *.
  destruct (str_falsy req); [discriminate|].
  destruct pp as [p|]; [|discriminate].
  destruct (str_falsy p); [discriminate|].
  set (o := mkOpts (JStr (">=" ++ req))
              (match detect p with Some q => JStr q | None => JNull end)
              (JStr (default "*" pc))) in *.
  destruct (snd (filter_obj detect compatible range_of f o rs))
    as [[|v rest]|e] eqn:Hf; simpl in H; try discriminate.
  destruct (str_eqb (tag v) req) eqn:Heq; [discriminate|].
  injection H as <- <- <- <-.
  apply filter_obj_head in Hf as (vs & Hl & Hsel & Hs).
  assert (Hdef : opts_defaults o = o) by (unfold o; destruct (detect p); reflexivity).
  rewrite Hdef in Hsel.
  assert (Hv : In v (List.filter (c3_selected detect compatible (sat_true range_of) o) vs))
    by (rewrite Hsel; left; reflexivity).
  apply filter_In in Hv as [Hv Hp].
  exists p, vs, v.
  split; [reflexivity|]; split; [exact Hl|]; split; [exact Hv|].
  split; [reflexivity|]; split; [reflexivity|]; split; [reflexivity|].
  split; [exact Heq|].
  split.
  - unfold c3_selected in Hp; apply andb_prop in Hp as [_ Ht].
    change ((str_eqb (">=" ++ req) "latest" ||
             sat_true range_of (tag v) (">=" ++ req)%string) = true) in Ht.
    rewrite ge_range_not_latest in Ht; exact Ht.
  - split; [exact Hp|].
    intros w Hw Hpw.
    destruct (filter_cons_member _ _ _ _ _ Hsel Hw Hpw) as [->|Hin]; [left; reflexivity|].
    right; rewrite List.Forall_forall in Hs; apply Hs; exact Hin.
Qed.

Lemma onUpdate_offer_witness :
  onUpdate detect_simple compatible_eq range_ge None (Some "osx") None "1.0.0"
    update_releases = Ok (UpdateAvailable "1.2.0" "a" "*" 10) /\
  exists p vs v,
    Some "osx" = Some p /\ list_versions detect_simple None update_releases = Ok vs /\
    In v vs /\ "1.2.0" = tag v /\ 10 = published_at v /\ "*" = default "*" None /\
    str_eqb "1.2.0" (hd "" (js_split "-" "1.0.0")) = false /\
    sat_true range_ge "1.2.0" (">=" ++ hd "" (js_split "-" "1.0.0"))%string = true /\
    c3_selected detect_simple compatible_eq (sat_true range_ge)
      (mkOpts (JStr (">=" ++ hd "" (js_split "-" "1.0.0")))
              (match detect_simple p with Some q => JStr q | None => JNull end) (JStr "*")) v
      = true /\
    forall w, In w vs ->
      c3_selected detect_simple compatible_eq (sat_true range_ge)
        (mkOpts (JStr (">=" ++ hd "" (js_split "-" "1.0.0")))
                (match detect_simple p with Some q => JStr q | None => JNull end) (JStr "*")) w
        = true ->
      w = v \/ tag_ge v w.
Proof.
  split; [reflexivity|].
  apply (onUpdate_offer detect_simple compatible_eq range_ge None (Some "osx") None
           "1.0.0" update_releases "1.2.0" "a" "*" 10).
  reflexivity.
Defined.

(** X13. When [onUpdateWin] gets to read a RELEASES file, it is the asset
    named exactly "RELEASES" of the first Version that the Windows query
    selects (tag [>=] the client's version, the requested channel or "*"),
    which is semver-greater than or equal to every other one selected. *)
Theorem onUpdateWin_releases (detect : string -> option string)
    (compatible : string -> string -> bool)
    (range_of : string -> option (semver_key -> bool)) (f : option regex)
    (pc : option string) (pv : string) (rs : list raw_release)
    (v : version_rec) (a : asset)
    (H : onUpdateWin detect compatible range_of f pc pv rs = Ok (v, a)) :
  a_filename a = "RELEASES" /\ In a (platforms v) /\
  exists vs rest, list_versions detect f rs = Ok vs /\
    List.filter (c3_selected detect compatible (sat_true range_of)
                   (mkOpts (JStr (">=" ++ pv))
                           (match detect "win_32" with Some q => JStr q | None => JNull end)
                           (JStr (param_or pc "*")))) vs = v :: rest /\
    Forall (tag_ge v) rest.
Proof.
  unfold onUpdateWin in H.
  set (o := mkOpts (JStr (">=" ++ pv))
              (match detect "win_32" with Some q => JStr q | None => JNull end)
              (JStr (param_or pc "*"))) in *.
  destruct (snd (filter_obj detect compatible range_of f o rs))
    as [[|v' rest]|e] eqn:Hf; simpl in H; try discriminate.
  destruct (find_filename "RELEASES" (platforms v')) as [a'|] eqn:Ha; [|discriminate].
  injection H as <- <-.
  apply find_filename_some in Ha as [Ha1 Ha2].
  apply filter_obj_head in Hf as (vs & Hl & Hsel & Hs).
  assert (Hdef : opts_defaults o = o) by (unfold o; destruct (detect "win_32"); reflexivity).
  rewrite Hdef in Hsel.
  split; [exact Ha1|]; split; [exact Ha2|].
  exists vs, rest; auto.
Qed.

Lemma onUpdateWin_releases_witness :
  onUpdateWin detect_with_releases compatible_eq range_ge None None "1.0.0"
    update_releases = Err (Error "Version not found") /\
  onUpdateWin detect_with_releases compatible_eq range_ge None None "1.0.0"
    win_releases = Err (Error "File not found") /\
  exists v a,
    onUpdateWin detect_with_releases compatible_eq range_ge None None "1.0.0"
      [release "v1.0.0" 5 None ["RELEASES"]] = Ok (v, a) /\
    a_filename a = "RELEASES" /\ In a (platforms v) /\
    exists vs rest,
      list_versions detect_with_releases None [release "v1.0.0" 5 None ["RELEASES"]]
        = Ok vs /\
      List.filter (c3_selected detect_with_releases compatible_eq (sat_true range_ge)
                     (mkOpts (JStr (">=" ++ "1.0.0"))
                             (match detect_with_releases "win_32" with
                              | Some q => JStr q | None => JNull end)
                             (JStr (param_or None "*")))) vs = v :: rest /\
      Forall (tag_ge v) rest.
Proof.
  split; [reflexivity|]; split; [reflexivity|].
  do 2 eexists; split; [reflexivity|].
  apply (onUpdateWin_releases detect_with_releases compatible_eq range_ge None None
           "1.0.0" [release "v1.0.0" 5 None ["RELEASES"]]).
  reflexivity.
Defined.

(** X14. When every tag of [list()] is one semver parses, the JSON
    release notes of [onServeNotes] are the notes of the Versions of
    [list()] whose tag satisfies [>=] the requested version (the range "*"
    without one), across every channel and platform, the requested version
    included, newest first; [pub_date] is the first one's.  When none
    satisfies it, it fails with "No versions matching". *)
Theorem onServeNotes_selection (detect : string -> option string)
    (compatible : string -> string -> bool)
    (range_of : string -> option (semver_key -> bool)) (f : option regex)
    (pv : option string) (rs : list raw_release) (vs : list version_rec)
    (Hl : list_versions detect f rs = Ok vs)
    (Hp : forall v, In v vs -> exists k, semver_parse (tag v) = Ok k) :
  let range := match param_truthy pv with
               | Some t => (">=" ++ t)%string
               | None => "*"
               end in
  (List.filter (fun v => sat_true range_of (tag v) range) vs = [] ->
   onServeNotes detect compatible range_of f pv rs =
     Err (Error "No versions matching")) /\
  (forall v rest, List.filter (fun v => sat_true range_of (tag v) range) vs = v :: rest ->
   onServeNotes detect compatible range_of f pv rs =
     Ok (notes_merge (v :: rest), published_at v)).
Proof.
  intros range.
  assert (E : snd (filter_obj detect compatible range_of f
                     (mkOpts (JStr range) JUndef (JStr "*")) rs) =
              Ok (List.filter (fun v => sat_true range_of (tag v) range) vs)).
  { rewrite (filter_obj_ok detect compatible range_of f _ rs vs Hl).
    - f_equal; apply List.filter_ext; intros v.
      unfold c3_selected, c3_pre, requested_platform; simpl.
      assert (Hr : str_eqb range "latest" = false)
        by (unfold range; destruct (param_truthy pv); reflexivity).
      rewrite Hr; reflexivity.
    - intros v Hv _; unfold tag_test_safe; simpl; right; right; right; exact (Hp v Hv). }
  unfold onServeNotes; cbv zeta; fold range; rewrite E; simpl.
  split; [intros ->; reflexivity|].
  intros v rest ->; reflexivity.
Qed.

Lemma onServeNotes_selection_witness :
  list_versions detect_simple None update_releases =
    Ok (ok_or_nil (list_versions detect_simple None update_releases)) /\
  onServeNotes detect_simple compatible_eq range_ge None (Some "1.1.0")
    update_releases = Ok ("ab", 10).
Proof.
  split; [vm_compute; reflexivity|].
  destruct (onServeNotes_selection detect_simple compatible_eq range_ge None
              (Some "1.1.0") update_releases
              (ok_or_nil (list_versions detect_simple None update_releases))
              ltac:(vm_compute; reflexivity)
              ltac:(intros v Hv; vm_compute in Hv;
                    repeat (destruct Hv as [<-|Hv]; [eexists; vm_compute; reflexivity|]);
                    destruct Hv)) as [_ H].
  apply (H (mkVersion "1.2.0" "1.2.0" "stable" "a" 10
              [mkAsset "app-darwin.dmg" "osx_64" "app-darwin.dmg" 1
                       "application/octet-stream"])
           [mkVersion "1.1.0" "1.1.0" "stable" "b" 5
              [mkAsset "app-darwin.dmg" "osx_64" "app-darwin.dmg" 1
                       "application/octet-stream"]]).
  vm_compute; reflexivity.
Defined.

(** X15. The versions feed lists one item per Version of [list()], in its
    order, titled by the tag: every Version for the channel "all" (the
    default) or "*", otherwise exactly the Versions of the requested
    channel; platforms and tags do not restrict it. *)
Theorem onServeVersionsFeed_items (detect : string -> option string)
    (compatible : string -> string -> bool)
    (range_of : string -> option (semver_key -> bool)) (f : option regex)
    (pc : option string) (rs : list raw_release) :
  onServeVersionsFeed detect compatible range_of f pc rs =
    (vs <-? list_versions detect f rs ;;
     Ok (map feed_item_of
           (List.filter (fun v => str_eqb (param_or pc "all") "all" ||
                                  str_eqb (param_or pc "all") "*" ||
                                  str_eqb (channel v) (param_or pc "all")) vs))).
Proof.
  unfold onServeVersionsFeed; cbv zeta.
  set (c := param_or pc "all").
  destruct (list_versions detect f rs) as [vs|e] eqn:Hl.
  2: rewrite filter_obj_snd, Hl; reflexivity.
  rewrite (filter_obj_ok detect compatible range_of f _ rs vs Hl).
  2: intros v _ _; unfold tag_test_safe; simpl; left; reflexivity.
  cbn [rbind]; do 2 f_equal; apply List.filter_ext; intros v.
  unfold c3_selected, c3_pre, requested_platform; simpl.
  rewrite !andb_true_r.
  destruct (str_eqb c "all") eqn:Ha; simpl; [reflexivity|].
  unfold str_eqb; rewrite (String.eqb_sym (channel v) c); reflexivity.
Qed.

(** X16. After [onElectronUpdater] resolves the newest Version for the
    platform and channel, the file name's last ['.']-separated field
    decides the answer: "json" gives that Version's full version and date;
    for another name that the Version has no asset of, and for any field
    other than json, yml, exe, zip and blockmap, the answer is 404. *)
Theorem onElectronUpdater_by_extension (detect : string -> option string)
    (compatible : string -> string -> bool)
    (range_of : string -> option (semver_key -> bool))
    (readAsset : asset -> string) (f : option regex)
    (pp pc : option string) (filename : string) (rs : list raw_release)
    (p : string) (latest : version_rec)
    (Hp : param_truthy pp = Some p)
    (Hr : resolve_fresh detect compatible range_of f
            (mkOpts JUndef (match detect p with Some q => JStr q | None => JNull end)
                    (JStr (param_or pc "*"))) rs = Ok latest) :
  (List.last (js_split "." filename) "" = "json" ->
   onElectronUpdater detect compatible range_of readAsset f pp pc filename rs =
     Ok (EUJson (version latest) (published_at latest))) /\
  (List.last (js_split "." filename) "" <> "json" ->
   find_filename filename (platforms latest) = None ->
   onElectronUpdater detect compatible range_of readAsset f pp pc filename rs =
     Ok EUNotFound) /\
  (~ In (List.last (js_split "." filename) "") ["json"; "yml"; "exe"; "zip"; "blockmap"] ->
   onElectronUpdater detect compatible range_of readAsset f pp pc filename rs =
     Ok EUNotFound).
Proof.
  unfold onElectronUpdater; rewrite Hp; cbv zeta; rewrite Hr; simpl.
  set (ct := List.last (js_split "." filename) "").
  split; [|split].
  - intros ->; reflexivity.
  - intros Hj Hn. rewrite Hn.
    assert (Hj' : str_eqb ct "json" = false)
      by (unfold str_eqb; apply String.eqb_neq; exact Hj).
    rewrite Hj'.
    destruct (str_eqb ct "yml"); [reflexivity|].
    destruct (str_eqb ct "exe" || str_eqb ct "zip" || str_eqb ct "blockmap"); reflexivity.
  - intros Hn.
    assert (Hne : forall s, In s ["json"; "yml"; "exe"; "zip"; "blockmap"] ->
                            str_eqb ct s = false).
    { intros s Hs; unfold str_eqb; apply String.eqb_neq; intros ->; exact (Hn Hs). }
    rewrite (Hne "json"), (Hne "yml"), (Hne "exe"), (Hne "zip"), (Hne "blockmap");
      simpl; auto 6.
Qed.

Lemma onElectronUpdater_by_extension_witness :
  find_filename "app-darwin.dmg"
    [mkAsset "app-darwin.dmg" "osx_64" "app-darwin.dmg" 1 "application/octet-stream"]
    <> None /\
  onElectronUpdater detect_simple compatible_eq range_ge (fun _ => "") None
    (Some "osx") None "app-darwin.dmg" update_releases = Ok EUNotFound /\
  onElectronUpdater detect_simple compatible_eq range_ge (fun _ => "") None
    (Some "osx") None "latest-mac.json" update_releases = Ok (EUJson "1.2.0" 10).
Proof.
  split; [discriminate|].
  destruct (onElectronUpdater_by_extension detect_simple compatible_eq range_ge
              (fun _ => "") None (Some "osx") None "app-darwin.dmg" update_releases "osx"
              (mkVersion "1.2.0" "1.2.0" "stable" "a" 10
                 [mkAsset "app-darwin.dmg" "osx_64" "app-darwin.dmg" 1
                          "application/octet-stream"])
              eq_refl ltac:(vm_compute; reflexivity)) as (_ & _ & H3).
  destruct (onElectronUpdater_by_extension detect_simple compatible_eq range_ge
              (fun _ => "") None (Some "osx") None "latest-mac.json" update_releases "osx"
              (mkVersion "1.2.0" "1.2.0" "stable" "a" 10
                 [mkAsset "app-darwin.dmg" "osx_64" "app-darwin.dmg" 1
                          "application/octet-stream"])
              eq_refl ltac:(vm_compute; reflexivity)) as (H1 & _ & _).
  split.
  { apply H3; intros Hin; vm_compute in Hin.
    repeat (destruct Hin as [Hin|Hin]; [discriminate Hin|]); exact Hin. }
  apply H1; reflexivity.
Defined.

(** X17. [onDownload] ignores the requested channel when a specific tag
    (not "latest") is requested, and ignores the platform parameter and the
    user agent when a file name is requested. *)
Theorem onDownload_ignores (detect : string -> option string)
    (compatible : string -> string -> bool)
    (range_of : string -> option (semver_key -> bool))
    (OSX WINDOWS LINUX LINUX_64 : string)
    (platforms_resolve : version_rec -> string -> option string -> option asset)
    (f : option regex) (ua ua' : useragent) (pc pc' pp pp' pt pf ft : option string)
    (rs : list raw_release) :
  (param_truthy pf <> None ->
   onDownload detect compatible range_of OSX WINDOWS LINUX LINUX_64
     platforms_resolve f ua pc pp pt pf ft rs =
   onDownload detect compatible range_of OSX WINDOWS LINUX LINUX_64
     platforms_resolve f ua' pc pp' pt pf ft rs) /\
  (param_or pt "latest" <> "latest" ->
   onDownload detect compatible range_of OSX WINDOWS LINUX LINUX_64
     platforms_resolve f ua pc pp pt pf ft rs =
   onDownload detect compatible range_of OSX WINDOWS LINUX LINUX_64
     platforms_resolve f ua pc' pp pt pf ft rs).
Proof.
  split.
  - intros Hf; unfold onDownload.
    destruct (param_truthy pf) as [fn|]; [reflexivity|congruence].
  - intros Ht; unfold onDownload; cbv zeta.
    assert (E : str_eqb (param_or pt "latest") "latest" = false)
      by (unfold str_eqb; apply String.eqb_neq; exact Ht).
    rewrite E; reflexivity.
Qed.

(** X18. A download by file name serves the asset with exactly that name
    of the first Version of [list()] that satisfies the tag, whatever its
    platform, in any channel when a specific tag is requested (the
    requested or the "stable" channel for "latest"); it is semver-greater
    than or equal to every other such Version. *)
Theorem onDownload_file (detect : string -> option string)
    (compatible : string -> string -> bool)
    (range_of : string -> option (semver_key -> bool))
    (OSX WINDOWS LINUX LINUX_64 : string)
    (platforms_resolve : version_rec -> string -> option string -> option asset)
    (f : option regex) (ua : useragent) (pc pp pt pf ft : option string)
    (rs : list raw_release) (fn : string) (v : version_rec) (a : asset)
    (Hf : param_truthy pf = Some fn)
    (H : onDownload detect compatible range_of OSX WINDOWS LINUX LINUX_64
           platforms_resolve f ua pc pp pt pf ft rs = Ok (v, a)) :
  a_filename a = fn /\ In a (platforms v) /\
  exists vs rest, list_versions detect f rs = Ok vs /\
    List.filter (c3_selected detect compatible (sat_true range_of)
                   (opts_defaults
                      (mkOpts (JStr (param_or pt "latest")) JNull
                              (if str_eqb (param_or pt "latest") "latest"
                               then match pc with Some c => JStr c | None => JUndef end
                               else JStr "*")))) vs = v :: rest /\
    Forall (tag_ge v) rest.
Proof.
  unfold onDownload in H; cbv zeta in H; rewrite Hf in H; simpl in H.
  set (o := mkOpts (JStr (param_or pt "latest")) JNull
              (if str_eqb (param_or pt "latest") "latest"
               then match pc with Some c => JStr c | None => JUndef end
               else JStr "*")) in *.
  destruct (resolve_fresh detect compatible range_of f o rs) as [v'|e] eqn:Hr;
    simpl in H; [|discriminate].
  destruct (find_filename fn (platforms v')) as [a'|] eqn:Ha; [|discriminate].
  injection H as <- <-.
  apply find_filename_some in Ha as [Ha1 Ha2].
  unfold resolve_fresh in Hr.
  destruct (resolve_head _ _ _ _ _ _ _ _ Hr) as (vs & rest & Hl & Hsel & Hs).
  rewrite lookup_insert_eq in Hsel; simpl in Hsel.
  split; [exact Ha1|]; split; [exact Ha2|].
  exists vs, rest; auto.
Qed.

Lemma onDownload_file_witness :
  param_truthy (Some "app-darwin.dmg") = Some "app-darwin.dmg" /\
  exists v a,
    onDownload detect_simple compatible_eq range_ge "osx" "windows" "linux" "linux_64"
      (fun _ _ _ => None) None (mkUA false true false false) None None None
      (Some "app-darwin.dmg") None update_releases = Ok (v, a) /\
    a_filename a = "app-darwin.dmg" /\ In a (platforms v) /\
    exists vs rest, list_versions detect_simple None update_releases = Ok vs /\
      List.filter (c3_selected detect_simple compatible_eq (sat_true range_ge)
                     (opts_defaults
                        (mkOpts (JStr (param_or None "latest")) JNull
                                (if str_eqb (param_or None "latest") "latest"
                                 then match (None : option string) with
                                      | Some c => JStr c | None => JUndef end
                                 else JStr "*")))) vs = v :: rest /\
      Forall (tag_ge v) rest.
Proof.
  split; [reflexivity|].
  do 2 eexists; split; [vm_compute; reflexivity|].
  apply (onDownload_file detect_simple compatible_eq range_ge "osx" "windows" "linux"
           "linux_64" (fun _ _ _ => None) None (mkUA false true false false) None None None
           (Some "app-darwin.dmg") None update_releases "app-darwin.dmg");
    vm_compute; reflexivity.
Defined.
